(** * TopShelfExhibits/manage: production-schedule utilities and search

    A shallow embedding of the date inference, overlap filtering and
    identifier code of [ProductionUtils] and of the row matching and
    highlighting code of the [useSearch] composable, with the properties
    the specification states about them.

    Conventions of the embedding.
    - A JavaScript string is a [string]: a sequence of code units below
      256 (Latin-1).  Case folding and white space are JavaScript's on these
      code units; text with other code units is outside the embedding.
    - A number the code computes with (a time value in milliseconds, a
      calendar field, a count) is [NaN] or an integer, a [Num].  A number
      read from the text of a cell with [Number] is any double, a [Double].
    - A [Date] object is its time value; [NaN] is the Invalid Date.
      [setFullYear], whose year comes from a cell, and the day offset of a
      filter, which comes from the caller, clip the time value to the range
      of time values.  A date the parser returns is an ordinary calendar
      date, from which the 10 to 30 days of the inference do not lead out
      of that range.  The host's local time zone is a constant offset from
      UTC of less than a day.
    - A schedule row is a finite map from header text to the cell under it;
      a cell is absent ([undefined]), [null] or text, as the documented
      parameter types of [computeIdentifier] have it.
    - [parseDate], [GetTopFuzzyMatch], [searchFilter] and the [Database]
      layer are imported from outside these files; they are parameters. *)

From stdpp Require Import gmap strings list.
From Stdlib Require Import ZArith Lia Ascii String DecimalString QArith Qcanon.

Local Open Scope string_scope.
Local Open Scope Z_scope.

(** ** JavaScript values, numbers and strings *)

Module JS.

(** Numbers the code computes with: the integers and NaN. *)
Inductive Num : Type :=
| NaN
| Fin (z : Z).

#[global] Instance Num_eq_dec : EqDecision Num.
Proof. solve_decision. Defined.

(** Doubles, which [Number] reads from text.  A finite double is a whole
    number, [DInt z], or, when it is not whole, [DFrac m k]: the fraction
    [m / 2^k] with [m] odd.  The sign of zero is not kept: no operation
    here tells [-0] from [0]. *)
Inductive Double : Type :=
| DNaN
| DInf (negative : bool)
| DInt (z : Z)
| DFrac (m : Z) (k : positive).

#[global] Instance Double_eq_dec : EqDecision Double.
Proof. solve_decision. Defined.

(** Cells and other dynamically typed values: [undefined], [null] or a string. *)
Inductive JsValue : Type :=
| VUndef
| VNull
| VStr (s : string).

#[global] Instance JsValue_eq_dec : EqDecision JsValue.
Proof. solve_decision. Defined.

(** Numeric [==] and its negation, between a number of the code and a
    double: NaN equals nothing, and an integer equals only the whole double
    of the same value. *)
Definition num_eqb (a : Num) (b : Double) : bool :=
  match a, b with
  | Fin x, DInt y => x =? y
  | _, _ => false
  end.

Definition num_neqb (a : Num) (b : Double) : bool := negb (num_eqb a b).

(** ToIntegerOrInfinity on a finite double: the fraction is dropped.
    [None] stands for NaN and the infinities. *)
Definition truncate (v : Double) : option Z :=
  match v with
  | DInt z => Some z
  | DFrac m k => Some (Z.quot m (2 ^ Z.pos k))
  | DNaN | DInf _ => None
  end.

(** Relational operators on numbers; a comparison with NaN is false. *)
Definition num_ltb (a b : Num) : bool :=
  match a, b with Fin x, Fin y => x <? y | _, _ => false end.

Definition num_leb (a b : Num) : bool :=
  match a, b with Fin x, Fin y => x <=? y | _, _ => false end.

Definition num_geb (a b : Num) : bool := num_leb b a.

Definition num_add (a : Num) (k : Z) : Num :=
  match a with Fin x => Fin (x + k) | NaN => NaN end.

(** *** Characters *)

(** White space and line terminators below 256: tab, line feed, vertical
    tab, form feed, carriage return, space and no-break space. *)
Definition isWhiteSpace (c : ascii) : bool :=
  match N_of_ascii c with
  | 9%N | 10%N | 11%N | 12%N | 13%N | 32%N | 160%N => true
  | _ => false
  end.

Definition isDigit (c : ascii) : bool :=
  let n := N_of_ascii c in ((48 <=? n) && (n <=? 57))%N.

Definition digitValue (c : ascii) : Z := Z.of_N (N_of_ascii c) - 48.

(** Value of a hexadecimal digit, if [c] is one. *)
Definition hexValue (c : ascii) : option Z :=
  let n := N_of_ascii c in
  if ((48 <=? n) && (n <=? 57))%N then Some (Z.of_N n - 48)
  else if ((65 <=? n) && (n <=? 70))%N then Some (Z.of_N n - 55)
  else if ((97 <=? n) && (n <=? 102))%N then Some (Z.of_N n - 87)
  else None.

(** The lower-case form of a code unit below 256: the letters A to Z and
    the accented capitals U+00C0 to U+00DE (the multiplication sign U+00D7
    apart) are 32 below their lower-case forms.  Two such code units have
    the same lower-case form exactly when a regular expression with the
    [i] flag takes one for the other. *)
Definition lowerChar (c : ascii) : ascii :=
  let n := N_of_ascii c in
  if ((65 <=? n) && (n <=? 90))%N
     || ((192 <=? n) && (n <=? 222) && negb (n =? 215))%N
  then ascii_of_N (n + 32) else c.

(** *** Strings *)

(** [String.prototype.toLowerCase] *)
Fixpoint toLowerCase (s : string) : string :=
  match s with
  | EmptyString => EmptyString
  | String c r => String (lowerChar c) (toLowerCase r)
  end.

Fixpoint trimStart (s : string) : string :=
  match s with
  | String c r => if isWhiteSpace c then trimStart r else s
  | EmptyString => EmptyString
  end.

Fixpoint trimEnd (s : string) : string :=
  match s with
  | EmptyString => EmptyString
  | String c r =>
      match trimEnd r with
      | EmptyString => if isWhiteSpace c then EmptyString else String c EmptyString
      | r' => String c r'
      end
  end.

(** [String.prototype.trim] *)
Definition trim (s : string) : string := trimEnd (trimStart s).

(** [p] is a prefix of [s]. *)
Fixpoint startsWith (p s : string) : bool :=
  match p, s with
  | EmptyString, _ => true
  | String a p', String b s' => Ascii.eqb a b && startsWith p' s'
  | String _ _, EmptyString => false
  end.

(** [s.includes(w)]: [w] occurs in [s] as a substring. *)
Fixpoint includes (s w : string) : bool :=
  startsWith w s ||
  match s with
  | EmptyString => false
  | String _ r => includes r w
  end.

(** A string is falsy exactly when it is empty. *)
Definition isEmpty (s : string) : bool :=
  match s with EmptyString => true | _ => false end.

(** *** Conversions *)

(** ToBoolean on a cell: [undefined], [null] and the empty string are falsy. *)
Definition truthy (v : JsValue) : bool :=
  match v with
  | VStr s => negb (isEmpty s)
  | _ => false
  end.

(** The decimal numeral of an integer, as [String(n)] prints it. *)
Definition Z_toString (z : Z) : string := NilZero.string_of_int (Z.to_int z).

Definition Num_toString (n : Num) : string :=
  match n with NaN => "NaN" | Fin z => Z_toString z end.

(** [String(v)] *)
Definition toString (v : JsValue) : string :=
  match v with
  | VUndef => "undefined"
  | VNull => "null"
  | VStr s => s
  end.

(** Longest run of decimal digits at the head of [s], read into [acc];
    the flag tells whether a digit was read. *)
Fixpoint readDecimal (s : string) (acc : Z) (seen : bool) : Z * bool * string :=
  match s with
  | String c r => if isDigit c then readDecimal r (10 * acc + digitValue c) true
                  else (acc, seen, s)
  | EmptyString => (acc, seen, s)
  end.

Fixpoint readHex (s : string) (acc : Z) (seen : bool) : Z * bool :=
  match s with
  | String c r => match hexValue c with
                  | Some d => readHex r (16 * acc + d) true
                  | None => (acc, seen)
                  end
  | EmptyString => (acc, seen)
  end.

(** Strip one leading sign; the result is the sign (1 or -1) and the rest. *)
Definition readSign (s : string) : Z * string :=
  match s with
  | String "-" r => (-1, r)
  | String "+" r => (1, r)
  | _ => (1, s)
  end.

(** [parseInt(s)] with no radix: leading white space, a sign, an optional
    [0x] prefix, then the longest prefix of digits; NaN when there is none. *)
Definition parseInt_string (s : string) : Num :=
  let '(sign, body) := readSign (trimStart s) in
  match body with
  | String "0" (String x r) =>
      if Ascii.eqb x "x" || Ascii.eqb x "X"
      then match readHex r 0 false with
           | (n, true) => Fin (sign * n)
           | (_, false) => NaN
           end
      else match readDecimal body 0 false with
           | (n, true, _) => Fin (sign * n)
           | (_, false, _) => NaN
           end
  | _ => match readDecimal body 0 false with
         | (n, true, _) => Fin (sign * n)
         | (_, false, _) => NaN
         end
  end.

(** [parseInt(v)]: the argument is converted with [String] first. *)
Definition parseInt (v : JsValue) : Num := parseInt_string (toString v).

(** The double nearest to [num / den], for [num > 0] and [den > 0], with
    a tie going to the even mantissa: the result [(q, p)] stands for
    [q * 2^p], where [q] has at most 53 bits (and a bit more only when the
    rounding carries) and [p] is at least -1074. *)
Definition roundBinary64 (num den : Z) : Z * Z :=
  let scaled (p : Z) := (num * 2 ^ Z.max (- p) 0) / (den * 2 ^ Z.max p 0) in
  let l := Z.log2 num - Z.log2 den in
  let p := if 2 ^ 52 <=? scaled (l - 52) then l - 52 else l - 53 in
  let p := Z.max p (-1074) in
  let n := num * 2 ^ Z.max (- p) 0 in
  let d := den * 2 ^ Z.max p 0 in
  let q := n / d in
  let r := n mod d in
  (if (d <? 2 * r) || ((d =? 2 * r) && Z.odd q) then q + 1 else q, p).

(** [m / 2^k] in lowest terms. *)
Fixpoint dyadic (m : Z) (k : nat) : Double :=
  match k with
  | O => DInt m
  | S k' => if Z.even m then dyadic (m / 2) k' else DFrac m (Pos.of_succ_nat k')
  end.

(** The Number value for [num / den] ([num >= 0], [den > 0]) with the given
    sign: rounded to the nearest double, an infinity from [2^1024] on. *)
Definition toDouble (negative : bool) (num den : Z) : Double :=
  if num =? 0 then DInt 0
  else
    let '(q, p) := roundBinary64 num den in
    let sign := if negative then -1 else 1 in
    if 0 <=? p
    then if 2 ^ 1024 <=? q * 2 ^ p then DInf negative else DInt (sign * (q * 2 ^ p))
    else dyadic (sign * q) (Z.to_nat (- p)).

(** Longest run of digits of the radix at the head of [s], read into
    [acc]; [count] counts them. *)
Fixpoint readDigits (radix : Z) (s : string) (acc count : Z) : Z * Z * string :=
  match s with
  | String c r =>
      match hexValue c with
      | Some d => if d <? radix then readDigits radix r (radix * acc + d) (count + 1)
                  else (acc, count, s)
      | None => (acc, count, s)
      end
  | EmptyString => (acc, count, s)
  end.

(** What is left after the digits of a decimal literal: nothing, or an
    exponent part [e], [e+] or [e-] with at least one digit. *)
Definition readExponent (s : string) : option Z :=
  match s with
  | EmptyString => Some 0
  | String c r =>
      if Ascii.eqb c "e" || Ascii.eqb c "E"
      then let '(sign, body) := readSign r in
           match readDigits 10 body 0 0 with
           | (n, count, EmptyString) => if 0 <? count then Some (sign * n) else None
           | _ => None
           end
      else None
  end.

(** An unsigned decimal literal: [Infinity], or digits with an optional
    fraction and an optional exponent, with a digit before or after the
    point. *)
Definition readDecimalLiteral (negative : bool) (s : string) : Double :=
  if String.eqb s "Infinity" then DInf negative
  else
    let '(i, ni, rest) := readDigits 10 s 0 0 in
    let '(n, nf, rest) :=
      match rest with
      | String "." r => readDigits 10 r i 0
      | _ => (i, 0, rest)
      end in
    if (0 <? ni) || (0 <? nf)
    then match readExponent rest with
         | Some e => toDouble negative (n * 10 ^ Z.max (e - nf) 0) (10 ^ Z.max (nf - e) 0)
         | None => DNaN
         end
    else DNaN.

(** A binary, octal or hexadecimal integer literal, after its prefix. *)
Definition readRadixLiteral (radix : Z) (digits : string) : Double :=
  match readDigits radix digits 0 0 with
  | (n, count, EmptyString) => if 0 <? count then toDouble false n 1 else DNaN
  | _ => DNaN
  end.

(** [Number(s)] on a string: white space is trimmed; the empty string is
    0; a literal with the prefix [0x], [0o] or [0b] (either case, no sign)
    is that integer; a decimal literal with an optional sign is its value;
    anything else is NaN.  The value is rounded to the nearest double, as
    the engines do for a literal of any length (past twenty significant
    digits the language standard would also allow a coarser rounding). *)
Definition StringToNumber (s : string) : Double :=
  match trim s with
  | EmptyString => DInt 0
  | String "0" (String x r) as t =>
      if Ascii.eqb x "x" || Ascii.eqb x "X" then readRadixLiteral 16 r
      else if Ascii.eqb x "o" || Ascii.eqb x "O" then readRadixLiteral 8 r
      else if Ascii.eqb x "b" || Ascii.eqb x "B" then readRadixLiteral 2 r
      else readDecimalLiteral false t
  | t => let '(sign, body) := readSign t in readDecimalLiteral (sign <? 0) body
  end.

(** [Number(v)] *)
Definition Number (v : JsValue) : Double :=
  match v with
  | VUndef => DNaN
  | VNull => DInt 0
  | VStr s => StringToNumber s
  end.

(** [n !== v] for a number [n]: a number is never strictly equal to
    [undefined], [null] or a string. *)
Definition strict_neq_num (n : Num) (v : JsValue) : bool :=
  match v with
  | VUndef | VNull | VStr _ => true
  end.

(** [n != v] for a number [n]: [null] and [undefined] are loosely equal
    only to each other; a string is converted with [Number]. *)
Definition loose_neq_num (n : Num) (v : JsValue) : bool :=
  match v with
  | VUndef | VNull => true
  | VStr s => num_neqb n (StringToNumber s)
  end.

(** [String.prototype.padStart(2, '0')] *)
Definition padStart2 (s : string) : string :=
  match s with
  | EmptyString => "00"
  | String c EmptyString => String "0" s
  | _ => s
  end.

(** *** Rows *)

(** A row of a sheet or table: header text (property name) to cell. *)
Abbreviation Row := (gmap string JsValue).

(** [row[k]]: an absent property reads as [undefined]. *)
Definition field (row : Row) (k : string) : JsValue := default VUndef (row !! k).

End JS.

(** ** Calendar arithmetic of ECMAScript time values *)

Module Calendar.

Definition msPerDay : Z := 86400000.

Definition Day (t : Z) : Z := t / msPerDay.

Definition TimeWithinDay (t : Z) : Z := t mod msPerDay.

(** Day number of the first day of year [y] (day 0 is 1 January 1970). *)
Definition DayFromYear (y : Z) : Z :=
  365 * (y - 1970) + (y - 1969) / 4 - (y - 1901) / 100 + (y - 1601) / 400.

Definition isLeap (y : Z) : bool :=
  (y mod 4 =? 0) && (negb (y mod 100 =? 0) || (y mod 400 =? 0)).

Definition DaysInYear (y : Z) : Z := if isLeap y then 366 else 365.

(** The year a day falls in: an estimate from the mean length of a year,
    corrected by at most one. *)
Definition YearFromDay (d : Z) : Z :=
  let y0 := 1970 + (400 * d) / 146097 in
  if d <? DayFromYear y0 then y0 - 1
  else if DayFromYear (y0 + 1) <=? d then y0 + 1
  else y0.

Definition YearFromTime (t : Z) : Z := YearFromDay (Day t).

Definition DayWithinYear (t : Z) : Z := Day t - DayFromYear (YearFromTime t).

Definition InLeapYear (t : Z) : bool := isLeap (YearFromTime t).

(** Number of days of the year before month [m] (0 = January). *)
Definition monthStart (leap : bool) (m : Z) : Z :=
  let l := if leap then 1 else 0 in
  match m with
  | 0 => 0
  | 1 => 31
  | 2 => 59 + l
  | 3 => 90 + l
  | 4 => 120 + l
  | 5 => 151 + l
  | 6 => 181 + l
  | 7 => 212 + l
  | 8 => 243 + l
  | 9 => 273 + l
  | 10 => 304 + l
  | 11 => 334 + l
  | _ => 365 + l
  end.

Definition monthOfDay (leap : bool) (d : Z) : Z :=
  let l := if leap then 1 else 0 in
  if d <? 31 then 0
  else if d <? 59 + l then 1
  else if d <? 90 + l then 2
  else if d <? 120 + l then 3
  else if d <? 151 + l then 4
  else if d <? 181 + l then 5
  else if d <? 212 + l then 6
  else if d <? 243 + l then 7
  else if d <? 273 + l then 8
  else if d <? 304 + l then 9
  else if d <? 334 + l then 10
  else 11.

Definition MonthFromTime (t : Z) : Z := monthOfDay (InLeapYear t) (DayWithinYear t).

Definition DateFromTime (t : Z) : Z :=
  DayWithinYear t - monthStart (InLeapYear t) (MonthFromTime t) + 1.

Definition MakeDay (year month date : Z) : Z :=
  let ym := year + month / 12 in
  let mn := month mod 12 in
  DayFromYear ym + monthStart (isLeap ym) mn + date - 1.

Definition MakeDate (day time : Z) : Z := day * msPerDay + time.

Definition DaysInMonth (y m : Z) : Z :=
  monthStart (isLeap y) (m + 1) - monthStart (isLeap y) m.

End Calendar.

(** ** Date objects *)

Module DateObj.
Import JS Calendar.

(** A Date object, by its time value. *)
Record Date : Type := newDate { getTime : Num }.

#[global] Instance Date_eq_dec : EqDecision Date.
Proof. solve_decision. Defined.

Definition InvalidDate : Date := newDate NaN.

(** [a < b], [a <= b], [a >= b] on Date objects compare the time values. *)
Definition date_ltb (a b : Date) : bool := num_ltb (getTime a) (getTime b).
Definition date_leb (a b : Date) : bool := num_leb (getTime a) (getTime b).
Definition date_geb (a b : Date) : bool := num_geb (getTime a) (getTime b).

(** [new Date(d.getTime() + n * 86400000)], for the 10 to 30 days the
    inference adds to or takes from a date of the parser: they do not lead
    out of the range of time values. *)
Definition addDays (d : Date) (n : Z) : Date :=
  newDate (num_add (getTime d) (n * msPerDay)).

(** The largest time value, 100 million days from the epoch. *)
Definition maxTime : Z := 8640000000000000.

(** TimeClip: a time beyond the range is NaN. *)
Definition TimeClip (t : Z) : Num := if Z.abs t <=? maxTime then Fin t else NaN.

Section LocalTime.

(** Offset of local time from UTC, in milliseconds.  The offset of a host
    is less than a day either way: a day or more in the parameter counts
    for nothing. *)
Variable LocalTZA : Z.

Definition offset : Z := Z.rem LocalTZA msPerDay.

Definition LocalTime (t : Z) : Z := t + offset.
Definition UTC (t : Z) : Z := t - offset.

Definition getFullYear (d : Date) : Num :=
  match getTime d with
  | NaN => NaN
  | Fin t => Fin (YearFromTime (LocalTime t))
  end.

Definition getMonth (d : Date) : Num :=
  match getTime d with
  | NaN => NaN
  | Fin t => Fin (MonthFromTime (LocalTime t))
  end.

Definition getDate (d : Date) : Num :=
  match getTime d with
  | NaN => NaN
  | Fin t => Fin (DateFromTime (LocalTime t))
  end.

(** [d.setFullYear(y)], as the date it leaves in [d]: the local month, day
    and time of day are kept and the year is the whole part of [y]; an
    Invalid Date starts from time value 0; a year that is NaN or infinite,
    or that takes the time out of the range of time values, makes the date
    invalid. *)
Definition setFullYear (d : Date) (y : Double) : Date :=
  let t := match getTime d with
           | NaN => 0
           | Fin t => LocalTime t
           end in
  match truncate y with
  | None => InvalidDate
  | Some yv =>
      newDate (TimeClip (UTC (MakeDate (MakeDay yv (MonthFromTime t) (DateFromTime t))
                                       (TimeWithinDay t))))
  end.

(** The regular expression [/^\d{4}-\d{2}-\d{2}$/]. *)
Definition isIsoDate (s : string) : bool :=
  match s with
  | String y1 (String y2 (String y3 (String y4 (String "-"
      (String m1 (String m2 (String "-" (String d1 (String d2 EmptyString))))))))) =>
      isDigit y1 && isDigit y2 && isDigit y3 && isDigit y4
      && isDigit m1 && isDigit m2 && isDigit d1 && isDigit d2
  | _ => false
  end.

(** [new Date(s + 'T00:00:00')] for [s] of the form YYYY-MM-DD: local
    midnight of that day, or the Invalid Date when the month or the day is
    out of range (a day past the end of its month counts as out of range,
    as the language standard has it). *)
Definition dateAtMidnight (s : string) : Date :=
  match s with
  | String y1 (String y2 (String y3 (String y4 (String _
      (String m1 (String m2 (String _ (String d1 (String d2 _))))))))) =>
      let y := 1000 * digitValue y1 + 100 * digitValue y2
               + 10 * digitValue y3 + digitValue y4 in
      let m := 10 * digitValue m1 + digitValue m2 in
      let d := 10 * digitValue d1 + digitValue d2 in
      if (1 <=? m) && (m <=? 12) && (1 <=? d) && (d <=? DaysInMonth y (m - 1))
      then newDate (Fin (UTC (MakeDate (MakeDay y (m - 1) d) 0)))
      else InvalidDate
  | _ => InvalidDate
  end.

End LocalTime.

End DateObj.

(** ** ProductionUtils *)

Module ProductionUtils.
Import JS Calendar DateObj.

(** [v || ''] rendered into a template string. *)
Definition orEmpty (v : JsValue) : string := if truthy v then toString v else "".

(** *** Calls to the data layer

    The asynchronous methods read sheets through [Database.getData]; a
    computation is its result together with the reads it performed, in
    order. *)

Inductive Call : Type :=
| GetData (tab : string).

Definition M (A : Type) : Type := (A * list Call)%type.

Definition ret {A : Type} (a : A) : M A := (a, []).

Definition bind {A B : Type} (m : M A) (f : A -> M B) : M B :=
  (fst (f (fst m)), (snd m ++ snd (f (fst m)))%list).

Definition await {A : Type} (tab : string) (a : A) : M A := (a, [GetData tab]).

Notation "'let*' x := m 'in' k" := (bind m (fun x => k))
  (at level 10, x name, m at level 100, k at level 200).

Fixpoint mapM {A B : Type} (f : A -> M B) (l : list A) : M (list B) :=
  match l with
  | [] => ret []
  | a :: r => let* b := f a in let* bs := mapM f r in ret (b :: bs)
  end.

(** *** Date filters *)

(** The [value] of a filter: a number (a whole number of days, or NaN), a
    string, or anything else. *)
Inductive FilterValue : Type :=
| FNum (n : Num)
| FStr (s : string)
| FOther.

#[global] Instance FilterValue_eq_dec : EqDecision FilterValue.
Proof. solve_decision. Defined.

Record DateFilter : Type := mkDateFilter {
  column : string;
  value : FilterValue;
  type : string
}.

#[global] Instance DateFilter_eq_dec : EqDecision DateFilter.
Proof. solve_decision. Defined.

Record Parameters : Type := mkParameters {
  dateFilters : option (list DateFilter)
}.

(** [Math.min(...l)] and [Math.max(...l)] on a non-empty list: NaN as soon
    as one argument is NaN.  (They are only called on a non-empty list.) *)
Fixpoint Math_min (l : list Num) : Num :=
  match l with
  | [] => NaN
  | [x] => x
  | x :: r => match x, Math_min r with
              | Fin a, Fin b => Fin (Z.min a b)
              | _, _ => NaN
              end
  end.

Fixpoint Math_max (l : list Num) : Num :=
  match l with
  | [] => NaN
  | [x] => x
  | x :: r => match x, Math_max r with
              | Fin a, Fin b => Fin (Z.max a b)
              | _, _ => NaN
              end
  end.

(** [for (let y = lo; y <= hi; y++) yearsToCheck.push(y)] *)
Definition yearLoop (lo hi : Num) : list Num :=
  match lo, hi with
  | Fin a, Fin b => Fin <$> seqZ a (b - a + 1)
  | _, _ => []
  end.

(** [l.indexOf(x)]; [None] stands for -1.  Elements are compared by their
    fields: two filters with the same fields resolve to the same date, so
    the first of them stands for both. *)
Fixpoint indexOf {A : Type} `{EqDecision A} (x : A) (l : list A) : option nat :=
  match l with
  | [] => None
  | y :: r => if decide (y = x) then Some 0%nat else S <$> indexOf x r
  end.

(** [l[i]] for the result of [indexOf]; out of range reads [undefined]. *)
Definition at_index {A : Type} (l : list A) (i : option nat) : option A :=
  match i with
  | Some n => l !! n
  | None => None
  end.

Section Model.

(** The host's time zone offset, and the clock reading of [new Date()]
    (one reading serves a whole call). *)
Variable LocalTZA : Z.
Variable now : Z.

(** [parseDate(raw, forceYear, year)]: the time value of a concrete date,
    or [None] for [null]. *)
Variable parseDate : JsValue -> bool -> JsValue -> option Z.

(** [GetTopFuzzyMatch(query, names, abbrs, threshold)]: the best canonical
    name, or [None] when it throws. *)
Variable GetTopFuzzyMatch :
  JsValue -> list string -> list string -> option Qc -> option string.

(** [searchFilter(data, searchParams)] *)
Variable SearchParams : Type.
Variable searchFilter : list Row -> SearchParams -> list Row.

(** [Database.getData('PROD_SCHED', tab)]: the sheet as rows of cells, or
    [None] when nothing comes back; and
    [Database.getData('PROD_SCHED', tab, mapping)]: the sheet as keyed rows. *)
Variable Database_raw : string -> option (list (list JsValue)).
Variable Database_rows : string -> gmap string string -> list Row.

Definition parsed (raw year : JsValue) : option Date :=
  (fun t => newDate (Fin t)) <$> parseDate raw true year.

(** **** Helper functions not exposed via the API *)

Definition _calculateShipDate (row : Row) : option Date :=
  let year := field row "Year" in
  match parsed (field row "Ship") year with
  | Some ship => Some ship
  | None =>
  match parsed (field row "S. Start") year with
  | Some sStart =>
      let ship := addDays sStart (-14) in
      Some (if strict_neq_num (getFullYear LocalTZA ship) year
            then let shipWithYearAdjusted := setFullYear LocalTZA ship (Number year) in
                 if date_ltb shipWithYearAdjusted sStart
                 then shipWithYearAdjusted else ship
            else ship)
  | None =>
  match parsed (field row "S. End") year with
  | Some sEnd =>
      let ship := addDays sEnd (-21) in
      Some (if strict_neq_num (getFullYear LocalTZA ship) year
            then let shipWithYearAdjusted := setFullYear LocalTZA ship (Number year) in
                 if date_ltb shipWithYearAdjusted sEnd
                 then shipWithYearAdjusted else ship
            else ship)
  | None => None
  end end end.

Definition _calculateReturnDate (row : Row) (shipDate : option Date) : option Date :=
  let year := field row "Year" in
  match parsed (field row "Expected Return Date") year with
  | Some ret => Some ret
  | None =>
  match parsed (field row "S. End") year with
  | Some sEnd =>
      let ret := addDays sEnd 10 in
      Some (if loose_neq_num (getFullYear LocalTZA ret) year
            then setFullYear LocalTZA ret (Number year) else ret)
  | None =>
  match parsed (field row "S. Start") year with
  | Some sStart =>
      let ret := addDays sStart 30 in
      Some (if loose_neq_num (getFullYear LocalTZA ret) year
            then setFullYear LocalTZA ret (Number year) else ret)
  | None =>
  match shipDate with
  | Some shipDate =>
      let ret := addDays shipDate 30 in
      Some (if loose_neq_num (getFullYear LocalTZA ret) year
            then setFullYear LocalTZA ret (Number year) else ret)
  | None => None
  end end end end.

(** **** getOverlappingShows and its helpers *)

Definition getRowDate (row : Row) (column : string) : option Date :=
  if String.eqb column "Ship" then _calculateShipDate row
  else if String.eqb column "Return" then
    let ship := _calculateShipDate row in
    _calculateReturnDate row ship
  else if String.eqb column "Show Date" then
    match parsed (field row "S. Start") (field row "Year") with
    | Some showDate => Some showDate
    | None =>
        match _calculateShipDate row with
        | Some ship => Some (addDays ship 10)
        | None => None
        end
    end
  else None.

Definition GetMappingFromProductionSchedule : M (gmap string string) :=
  let* rawData := await "ProductionSchedule" (Database_raw "ProductionSchedule") in
  match rawData with
  | None | Some [] => ret ∅
  | Some (headers :: _) =>
      ret (foldl (fun mapping header =>
                    if truthy header && negb (isEmpty (trim (toString header)))
                    then <[toString header := toString header]> mapping
                    else mapping) ∅ headers)
  end.

Definition computeIdentifierReferenceData
  : M ((list string * list string) * (list string * list string)) :=
  let* clientsData := await "Clients"
    (Database_rows "Clients" {[ "name" := "Clients"; "abbr" := "Abbreviations" ]}) in
  let* showsData := await "Shows"
    (Database_rows "Shows" {[ "name" := "Shows"; "abbr" := "Abbreviations" ]}) in
  ret ((map (fun row => orEmpty (field row "name")) clientsData,
        map (fun row => orEmpty (field row "abbr")) clientsData),
       (map (fun row => orEmpty (field row "name")) showsData,
        map (fun row => orEmpty (field row "abbr")) showsData)).

Definition computeIdentifier (showName clientName year : JsValue) : M string :=
  if negb (truthy showName) || isEmpty (trim (toString showName)) then ret ""
  else
    let* referenceData := computeIdentifierReferenceData in
    let '((clientNames, clientAbbrs), (showNames, showAbbrs)) := referenceData in
    let clientMatch :=
      match GetTopFuzzyMatch clientName clientNames clientAbbrs None with
      | Some m => m
      | None => orEmpty clientName
      end in
    let showMatch :=
      match GetTopFuzzyMatch showName showNames showAbbrs (Some (Q2Qc (5 # 2))) with
      | Some m => m
      | None => orEmpty showName
      end in
    ret (trim (clientMatch ++ " " ++ orEmpty year ++ " " ++ showMatch)).

(** The identifier branch of [resolveFilterValue]: the loop over the rows. *)
Fixpoint resolveIdentifier (filter : DateFilter) (value : string) (data : list Row)
  : M (option Date) :=
  match data with
  | [] => ret None
  | row :: rest =>
      let showName := field row "Show" in
      let client := field row "Client" in
      let year := field row "Year" in
      if truthy showName && truthy client && truthy year then
        let* computedIdentifier := computeIdentifier showName client year in
        if String.eqb computedIdentifier value then
          if String.eqb (column filter) "Ship" && String.eqb (type filter) "before" then
            let ship := _calculateShipDate row in
            ret (_calculateReturnDate row ship)
          else if String.eqb (column filter) "Return" && String.eqb (type filter) "after" then
            ret (_calculateShipDate row)
          else ret (getRowDate row (column filter))
        else resolveIdentifier filter value rest
      else resolveIdentifier filter value rest
  end.

Definition resolveFilterValue (filter : DateFilter) (data : list Row) : M (option Date) :=
  match value filter with
  | FNum n =>
      let today := newDate (Fin now) in
      ret (Some (newDate (match n, getTime today with
                          | Fin k, Fin t => TimeClip (t + k * 86400000)
                          | _, _ => NaN
                          end)))
  | FStr s =>
      if isIsoDate s then ret (Some (dateAtMidnight LocalTZA s))
      else resolveIdentifier filter s data
  | FOther => ret None
  end.

(** The test [data.filter] applies to a row, given the filters and their
    resolved dates. *)
Definition keepRow (dateFilters : list DateFilter) (filterDates : list (option Date))
    (yearsToCheck : list Num) (row : Row) : bool :=
  if negb (truthy (field row "Year"))
     || negb (bool_decide (parseInt (field row "Year") ∈ yearsToCheck))
  then false
  else
    forallb (fun filter =>
      match getRowDate row (column filter) with
      | None => false
      | Some rowDate =>
          let filterDateIndex := indexOf filter dateFilters in
          match at_index filterDates filterDateIndex with
          | None | Some None => false
          | Some (Some filterDate) =>
              if String.eqb (type filter) "after" then date_geb rowDate filterDate
              else if String.eqb (type filter) "before" then date_leb rowDate filterDate
              else true
          end
      end) dateFilters.

Definition getOverlappingShows (parameters : option Parameters)
    (searchParams : option SearchParams) : M (list Row) :=
  let* mapping := GetMappingFromProductionSchedule in
  let* data := await "ProductionSchedule" (Database_rows "ProductionSchedule" mapping) in
  let data := match searchParams with
              | Some sp => searchFilter data sp
              | None => data
              end in
  match parameters ≫= dateFilters with
  | None | Some [] => ret data
  | Some dateFilters =>
      let* filterDates := mapM (fun f => resolveFilterValue f data) dateFilters in
      let validDates := omap (M := list) id filterDates in
      if (List.length validDates =? 0)%nat then ret []
      else
        let years := map (getFullYear LocalTZA) validDates in
        let minYear := Math_min years in
        let maxYear := Math_max years in
        let yearsToCheck := yearLoop minYear maxYear in
        ret (List.filter (keepRow dateFilters filterDates yearsToCheck) data)
  end.

(** [String(n).padStart(2, '0')] *)
Definition pad2 (n : Num) : string := padStart2 (Num_toString n).

Definition guessShipDate (row : Row) : JsValue :=
  if truthy (field row "Ship") && negb (isEmpty (trim (toString (field row "Ship"))))
  then field row "Ship"
  else
    match _calculateShipDate row with
    | Some guessedDate =>
        let month := pad2 (num_add (getMonth LocalTZA guessedDate) 1) in
        let day := pad2 (getDate LocalTZA guessedDate) in
        let year := getFullYear LocalTZA guessedDate in
        VStr (month ++ "/" ++ day ++ "/" ++ Num_toString year)
    | None => VNull
    end.

End Model.

End ProductionUtils.

(** ** The useSearch composable *)

Module UseSearch.
Import JS.

Local Open Scope nat_scope.
Local Open Scope list_scope.

(** [s.split(/\s+/)]: the pieces between maximal runs of white space.
    [cur] is the piece being read and [inSep] tells whether the previous
    character was white space. *)
Fixpoint splitRuns (s : string) (cur : string) (inSep : bool) : list string :=
  match s with
  | EmptyString => [cur]
  | String c r =>
      if isWhiteSpace c
      then if inSep then splitRuns r cur true else cur :: splitRuns r EmptyString true
      else splitRuns r (cur +:+ String c EmptyString) false
  end.

Definition splitSearchTerms (searchTerm : string) : list string :=
  if isEmpty searchTerm then []
  else List.filter (fun word => 0 <? String.length word)
                   (splitRuns (trim searchTerm) EmptyString false).

(** [escapeHtml]: five global replacements, one after the other. *)
Definition replaceAll (c : ascii) (by_ : list ascii) (s : list ascii) : list ascii :=
  flat_map (fun x => if Ascii.eqb x c then by_ else [x]) s.

Definition quot : ascii := "034"%char.

Definition escapeHtmlChars (text : list ascii) : list ascii :=
  replaceAll "'" (list_ascii_of_string "&#039;")
    (replaceAll quot (list_ascii_of_string "&quot;")
      (replaceAll ">" (list_ascii_of_string "&gt;")
        (replaceAll "<" (list_ascii_of_string "&lt;")
          (replaceAll "&" (list_ascii_of_string "&amp;") text)))).

Definition escapeHtml (text : string) : string :=
  string_of_list_ascii (escapeHtmlChars (list_ascii_of_string text)).

(** A match of a search word: [{start, end, text}]. *)
Record Match : Type := mkMatch {
  start : nat;
  end_ : nat;
  text : list ascii
}.

(** [s.substring(a, b)]: the arguments are swapped when [a > b] and clamped
    to the length. *)
Definition substring (s : list ascii) (a b : nat) : list ascii :=
  let lo := Nat.min a b in
  let hi := Nat.max a b in
  firstn (hi - lo) (skipn lo s).

(** The regular expression built from an escaped word with flags [gi]
    matches at the head of [s] when the word is, letter case apart, a
    prefix of [s]; the match is the prefix of [s] of the word's length. *)
Fixpoint matchesHere (word s : list ascii) : bool :=
  match word, s with
  | [], _ => true
  | a :: word', b :: s' => Ascii.eqb (lowerChar a) (lowerChar b) && matchesHere word' s'
  | _ :: _, [] => false
  end.

(** The loop [while ((match = regex.exec(stringValue)) !== null)] for a
    non-empty word: [s] is the text from position [pos] on and [skip] the
    number of characters still before [lastIndex]. *)
Fixpoint execLoop (word : list ascii) (s : list ascii) (pos skip : nat) : list Match :=
  match s with
  | [] => []
  | _ :: r =>
      match skip with
      | S k => execLoop word r (S pos) k
      | O =>
          if matchesHere word s
          then {| start := pos; end_ := pos + List.length word;
                  text := firstn (List.length word) s |}
               :: execLoop word r (S pos) (List.length word - 1)
          else execLoop word r (S pos) 0
      end
  end.

(** All matches of one word; [None] when the loop never ends, which is the
    case of the empty word (its regular expression matches the empty string
    at [lastIndex] and leaves [lastIndex] where it is). *)
Definition matchesOfWord (stringValue : list ascii) (word : string) : option (list Match) :=
  match list_ascii_of_string word with
  | [] => None
  | w => Some (execLoop w stringValue 0 0)
  end.

(** [words.forEach(...)]: the matches of all words, in order. *)
Fixpoint collectMatches (stringValue : list ascii) (words : list string)
  : option (list Match) :=
  match words with
  | [] => Some []
  | word :: rest =>
      match matchesOfWord stringValue word with
      | None => None
      | Some ms =>
          match collectMatches stringValue rest with
          | None => None
          | Some ms' => Some (ms ++ ms')
          end
      end
  end.

(** [matches.sort((a, b) => a.start - b.start)]: a stable sort; a match
    stays before the later matches with the same start. *)
Fixpoint insertByStart (m : Match) (l : list Match) : list Match :=
  match l with
  | [] => [m]
  | x :: r => if start m <=? start x then m :: l else x :: insertByStart m r
  end.

Fixpoint sortByStart (l : list Match) : list Match :=
  match l with
  | [] => []
  | m :: r => insertByStart m (sortByStart r)
  end.

(** The merging loop; [merged] is kept with its last element first. *)
Fixpoint mergeLoop (stringValue : list ascii) (merged : list Match) (matches : list Match)
  : list Match :=
  match matches with
  | [] => rev merged
  | m :: rest =>
      match merged with
      | [] => mergeLoop stringValue [m] rest
      | last :: before =>
          if start m <=? end_ last
          then let e := Nat.max (end_ last) (end_ m) in
               mergeLoop stringValue
                 ({| start := start last; end_ := e;
                     text := substring stringValue (start last) e |} :: before) rest
          else mergeLoop stringValue (m :: merged) rest
      end
  end.

Definition spanOpen : list ascii :=
  list_ascii_of_string "<span class=" ++ [quot]
  ++ list_ascii_of_string "search-match" ++ [quot] ++ list_ascii_of_string ">".

Definition spanClose : list ascii := list_ascii_of_string "</span>".

(** The loop that builds the result. *)
Fixpoint buildLoop (stringValue : list ascii) (merged : list Match)
    (result : list ascii) (lastIndex : nat) : list ascii :=
  match merged with
  | [] => result ++ escapeHtmlChars (skipn lastIndex stringValue)
  | m :: rest =>
      let beforeMatch := substring stringValue lastIndex (start m) in
      let result := result ++ escapeHtmlChars beforeMatch in
      let matchText := escapeHtmlChars (text m) in
      let result := result ++ spanOpen ++ matchText ++ spanClose in
      buildLoop stringValue rest result (end_ m)
  end.

(** [applyHighlighting(text, words)]; [None] when it does not return. *)
Definition applyHighlighting (text : string) (words : list string) : option string :=
  if isEmpty text || (List.length words =? 0) then Some (escapeHtml text)
  else
    let stringValue := list_ascii_of_string text in
    match collectMatches stringValue words with
    | None => None
    | Some matches =>
        let matches := sortByStart matches in
        let merged := mergeLoop stringValue [] matches in
        Some (string_of_list_ascii (buildLoop stringValue merged [] 0))
    end.

(** A column definition; only its [key] is read here. *)
Record Column : Type := mkColumn { key : string }.

Section Search.

(** The reactive state: the text of the search box. *)
Variable searchValue : string.

Definition searchWords : list string := splitSearchTerms searchValue.

Definition hasActiveSearch : bool := 0 <? String.length (trim searchValue).

(** [hasMatch(value)] with no formatter *)
Definition hasMatch (v : JsValue) : bool :=
  if negb hasActiveSearch then false
  else if negb (truthy v) then false
  else
    let formattedLower := toLowerCase (toString v) in
    existsb (fun word => includes formattedLower (toLowerCase word)) searchWords.

(** [matchesRow(row, visibleColumns)]; [None] is a missing row. *)
Definition matchesRow (row : option Row) (visibleColumns : list Column) : bool :=
  if negb hasActiveSearch then true
  else
    match row with
    | None => false
    | Some row =>
        let words := searchWords in
        forallb (fun word =>
          existsb (fun column =>
            let value := field row (key column) in
            includes (toLowerCase (toString value)) word) visibleColumns) words
    end.

End Search.

End UseSearch.

(** ** A small schedule for the examples *)

Module Fixture.
Import JS Calendar DateObj ProductionUtils.

(** A host on UTC, asked on 1 January 2025. *)
Definition LocalTZA : Z := 0.
Definition now : Z := 1735689600000.

(** A date parser for the examples: text of the form YYYY-MM-DD is that day
    at local midnight, anything else is not a date. *)
Definition parseDate (raw : JsValue) (forceYear : bool) (year : JsValue) : option Z :=
  match raw with
  | VStr s =>
      if isIsoDate s
      then match getTime (dateAtMidnight LocalTZA s) with
           | Fin t => Some t
           | NaN => None
           end
      else None
  | VUndef | VNull => None
  end.

(** A matcher with no reference names: it throws on every query. *)
Definition GetTopFuzzyMatch (query : JsValue) (names abbrs : list string)
    (threshold : option Qc) : option string := None.

Definition searchFilter (data : list Row) (searchParams : unit) : list Row := data.

Definition Database_raw (tab : string) : option (list (list JsValue)) := None.

Definition summit : Row :=
  {[ "Show" := VStr "SUMMIT"; "Client" := VStr "ACME"; "Year" := VStr "2025";
     "S. Start" := VStr "2025-06-10"; "S. End" := VStr "2025-06-12";
     "Expected Return Date" := VStr "2025-07-01" ]}.

Definition expo : Row :=
  {[ "Show" := VStr "EXPO"; "Client" := VStr "GLOBEX"; "Year" := VStr "2025";
     "Ship" := VStr "2025-05-15" ]}.

Definition late : Row :=
  {[ "Show" := VStr "GALA"; "Client" := VStr "INITECH"; "Year" := VStr "2025";
     "Ship" := VStr "2025-07-02" ]}.

Definition undated : Row :=
  {[ "Show" := VStr "FAIR"; "Client" := VStr "HOOLI"; "Ship" := VStr "2025-05-15" ]}.

Definition january : Row :=
  {[ "Year" := VStr "2025"; "S. Start" := VStr "2025-01-05" ]}.

Definition Database_rows (tab : string) (mapping : gmap string string) : list Row :=
  if String.eqb tab "ProductionSchedule" then [summit; expo; late; undated] else [].

Definition shipBeforeSummit : DateFilter :=
  {| column := "Ship"; value := FStr "ACME 2025 SUMMIT"; type := "before" |}.

Definition shipBeforeJune : DateFilter :=
  {| column := "Ship"; value := FStr "2025-06-01"; type := "before" |}.

Definition shipBeforeNobody : DateFilter :=
  {| column := "Ship"; value := FStr "NOBODY 2025 NOWHERE"; type := "before" |}.

End Fixture.

(** * Properties *)

(** ** Calendar facts *)

Module CalendarFacts.
Import JS Calendar DateObj.

Ltac div_lia := Z.to_euclidean_division_equations; lia.

(** [YearFromDay] is the year whose days contain [d]. *)
Lemma YearFromDay_bounds (d : Z) :
  DayFromYear (YearFromDay d) <= d < DayFromYear (YearFromDay d + 1).
Proof.
  unfold YearFromDay, DayFromYear.
  repeat case_match; div_lia.
Qed.

Lemma DayFromYear_succ (y : Z) :
  DayFromYear (y + 1) = DayFromYear y + DaysInYear y.
Proof.
  unfold DayFromYear, DaysInYear, isLeap.
  destruct (y mod 4 =? 0) eqn:E4; destruct (y mod 100 =? 0) eqn:E100;
    destruct (y mod 400 =? 0) eqn:E400; cbn [andb orb negb]; div_lia.
Qed.

Lemma DayWithinYear_bounds (t : Z) :
  0 <= DayWithinYear t < DaysInYear (YearFromTime t).
Proof.
  unfold DayWithinYear, YearFromTime.
  pose proof (YearFromDay_bounds (Day t)) as H.
  rewrite DayFromYear_succ in H. lia.
Qed.

Lemma MonthFromTime_bounds (t : Z) : 0 <= MonthFromTime t <= 11.
Proof.
  unfold MonthFromTime, monthOfDay. repeat case_match; lia.
Qed.

Lemma DateFromTime_bounds (t : Z) : 1 <= DateFromTime t <= 31.
Proof.
  pose proof (DayWithinYear_bounds t) as H.
  unfold DateFromTime, MonthFromTime, monthOfDay, monthStart, DaysInYear, InLeapYear in *.
  destruct (isLeap (YearFromTime t)); repeat case_match; lia.
Qed.

(** Rebuilding a day from its own year, month and day of month. *)
Lemma MakeDay_of_fields (t : Z) :
  MakeDay (YearFromTime t) (MonthFromTime t) (DateFromTime t) = Day t.
Proof.
  pose proof (MonthFromTime_bounds t) as Hm.
  unfold MakeDay.
  rewrite (Z.div_small (MonthFromTime t) 12), (Z.mod_small (MonthFromTime t) 12) by lia.
  rewrite Z.add_0_r.
  unfold DateFromTime, DayWithinYear, InLeapYear. lia.
Qed.

Lemma MakeDate_of_parts (t : Z) : MakeDate (Day t) (TimeWithinDay t) = t.
Proof.
  unfold MakeDate, Day, TimeWithinDay, msPerDay. div_lia.
Qed.

(** Setting a date's year to the year it already has gives its own time
    back, clipped. *)
Lemma setFullYear_same (tz : Z) (d : Date) (t y : Z) (v : Double) :
  getTime d = Fin t -> getFullYear tz d = Fin y -> truncate v = Some y ->
  setFullYear tz d v = newDate (TimeClip t).
Proof.
  unfold getFullYear, setFullYear. intros -> [= <-] ->.
  rewrite MakeDay_of_fields, MakeDate_of_parts.
  unfold UTC, LocalTime. do 2 f_equal. lia.
Qed.

Lemma offset_bounds (tz : Z) : - msPerDay < offset tz < msPerDay.
Proof.
  unfold offset, msPerDay. Z.to_euclidean_division_equations. lia.
Qed.

(** The time of a date in a year from -271820 to 275759, the years that
    lie whole in the range of time values, is in that range. *)
Lemma TimeClip_year (tz t : Z) :
  -271820 <= YearFromTime (LocalTime tz t) <= 275759 -> TimeClip t = Fin t.
Proof.
  intros Hy. pose proof (offset_bounds tz) as Ho.
  pose proof (YearFromDay_bounds (Day (LocalTime tz t))) as Hd.
  fold (YearFromTime (LocalTime tz t)) in Hd.
  set (y := YearFromTime (LocalTime tz t)) in *.
  assert (Hlo : DayFromYear (-271820) <= DayFromYear y)
    by (unfold DayFromYear; div_lia).
  assert (Hhi : DayFromYear (y + 1) <= DayFromYear 275760)
    by (unfold DayFromYear; div_lia).
  change (DayFromYear (-271820)) with (-99999744) in Hlo.
  change (DayFromYear 275760) with 99999744 in Hhi.
  unfold TimeClip, maxTime.
  replace (Z.abs t <=? 8640000000000000) with true; [reflexivity|].
  symmetry. apply Z.leb_le.
  unfold LocalTime, Day, msPerDay in *. div_lia.
Qed.

End CalendarFacts.

(** ** Date inference (specification 4.1) *)

Module DateInference.
Import JS Calendar DateObj ProductionUtils CalendarFacts.

Section Rules.

Variable LocalTZA : Z.
Variable parseDate : JsValue -> bool -> JsValue -> option Z.

(** The year a row declares, as a number. *)
Definition declaredYear (row : Row) : Double := Number (field row "Year").

(** The parsed date of a field of the row, read with the row's year. *)
Definition parsedField (row : Row) (name : string) : option Date :=
  parsed parseDate (field row name) (field row "Year").

(** Ship-date rules 2 and 3 as the specification words them: [n] days
    before the anchor date; when that lands in another year than the
    declared one, the declared year is forced onto it only if the forced
    date is strictly before the anchor. *)
Definition daysBeforeSpec (row : Row) (anchor : Date) (n : Z) : Date :=
  let candidate := addDays anchor (- n) in
  if num_neqb (getFullYear LocalTZA candidate) (declaredYear row)
  then
    let forced := setFullYear LocalTZA candidate (declaredYear row) in
    if date_ltb forced anchor then forced else candidate
  else candidate.

Definition shipDateSpec (row : Row) : option Date :=
  match parsedField row "Ship" with
  | Some explicit => Some explicit
  | None =>
      match parsedField row "S. Start" with
      | Some sStart => Some (daysBeforeSpec row sStart 14)
      | None =>
          match parsedField row "S. End" with
          | Some sEnd => Some (daysBeforeSpec row sEnd 21)
          | None => None
          end
      end
  end.

(** Return-date rules 2 to 4 as the specification words them: when the
    date's year differs from the declared one, the declared year is forced
    onto it, whatever the order of the dates. *)
Definition forceDeclaredYearSpec (row : Row) (d : Date) : Date :=
  if num_neqb (getFullYear LocalTZA d) (declaredYear row)
  then setFullYear LocalTZA d (declaredYear row)
  else d.

Definition returnDateSpec (row : Row) (shipDate : option Date) : option Date :=
  match parsedField row "Expected Return Date" with
  | Some explicit => Some explicit
  | None =>
      match parsedField row "S. End" with
      | Some sEnd => Some (forceDeclaredYearSpec row (addDays sEnd 10))
      | None =>
          match parsedField row "S. Start" with
          | Some sStart => Some (forceDeclaredYearSpec row (addDays sStart 30))
          | None =>
              match shipDate with
              | Some ship => Some (forceDeclaredYearSpec row (addDays ship 30))
              | None => None
              end
          end
      end
  end.

(** When the years agree as numbers, forcing the declared year leaves the
    date as it is, or makes it invalid when its time is out of range. *)
Lemma force_same_year (row : Row) (d : Date) :
  num_neqb (getFullYear LocalTZA d) (declaredYear row) = false ->
  exists t y, getTime d = Fin t /\ getFullYear LocalTZA d = Fin y
    /\ declaredYear row = DInt y
    /\ setFullYear LocalTZA d (Number (field row "Year")) = newDate (TimeClip t).
Proof.
  unfold num_neqb, num_eqb, declaredYear.
  destruct (getFullYear LocalTZA d) as [|y] eqn:Hy; [discriminate|].
  destruct (Number (field row "Year")) as [| |y'|]; try discriminate.
  intros H. apply negb_false_iff, Z.eqb_eq in H. subst y'.
  destruct d as [[|t]]; [discriminate|].
  exists t, y. repeat split; try assumption.
  now apply setFullYear_same with y.
Qed.

(** The strict comparison of the ship-date path against the numeric one. *)
Lemma ship_adjust_agrees (row : Row) (anchor : Date) (n : Z) :
  (let ship := addDays anchor (- n) in
   if strict_neq_num (getFullYear LocalTZA ship) (field row "Year")
   then let adjusted := setFullYear LocalTZA ship (Number (field row "Year")) in
        if date_ltb adjusted anchor then adjusted else ship
   else ship)
  = daysBeforeSpec row anchor n.
Proof.
  unfold daysBeforeSpec. cbv zeta.
  set (ship := addDays anchor (- n)).
  replace (strict_neq_num (getFullYear LocalTZA ship) (field row "Year")) with true
    by (now destruct (field row "Year")).
  destruct (num_neqb (getFullYear LocalTZA ship) (declaredYear row)) eqn:E.
  - reflexivity.
  - destruct (force_same_year row ship E) as (t & y & Ht & _ & _ & ->).
    unfold TimeClip. destruct (Z.abs t <=? maxTime).
    + replace (newDate (Fin t)) with ship by (destruct ship; cbn in Ht; now subst).
      now destruct (date_ltb ship anchor).
    + reflexivity.
Qed.

(** The loose comparison of the return-date path against the numeric one. *)
Lemma return_adjust_agrees (row : Row) (d : Date) :
  (if loose_neq_num (getFullYear LocalTZA d) (field row "Year")
   then setFullYear LocalTZA d (Number (field row "Year")) else d)
  = forceDeclaredYearSpec row d.
Proof.
  unfold forceDeclaredYearSpec.
  destruct (num_neqb (getFullYear LocalTZA d) (declaredYear row)) eqn:E.
  - unfold declaredYear in *.
    destruct (field row "Year") as [| |s]; try reflexivity.
    unfold loose_neq_num. change (StringToNumber s) with (Number (VStr s)).
    now rewrite E.
  - destruct (force_same_year row d E) as (t & y & Ht & Hy & Hdecl & Hsame).
    unfold declaredYear in *.
    destruct (field row "Year") as [| |s].
    + discriminate.
    + (* a null [Year] counts as the year 0, which is in range *)
      injection Hdecl as <-. cbn [loose_neq_num]. rewrite Hsame.
      unfold getFullYear in Hy. rewrite Ht in Hy. injection Hy as Hy.
      rewrite (TimeClip_year LocalTZA t) by lia.
      destruct d; cbn in Ht; now subst.
    + unfold loose_neq_num. change (StringToNumber s) with (Number (VStr s)).
      now rewrite E.
Qed.

(** C1. For every schedule row the ship-date inference is: the parsed
    explicit [Ship] field if it parses; otherwise [S. Start] minus 14 days,
    with the declared year forced onto the result, when the subtraction
    lands in another year, only if the forced date is strictly before the
    parsed [S. Start]; otherwise [S. End] minus 21 days with the same rule
    relative to the parsed [S. End]; otherwise null. *)
Theorem calculateShipDate_rules (row : Row) :
  _calculateShipDate LocalTZA parseDate row = shipDateSpec row.
Proof.
  unfold _calculateShipDate, shipDateSpec, parsedField.
  destruct (parsed parseDate (field row "Ship") (field row "Year")); [reflexivity|].
  destruct (parsed parseDate (field row "S. Start") (field row "Year")) as [sStart|].
  - f_equal. apply (ship_adjust_agrees row sStart 14).
  - destruct (parsed parseDate (field row "S. End") (field row "Year")) as [sEnd|];
      [|reflexivity].
    f_equal. apply (ship_adjust_agrees row sEnd 21).
Qed.

(** C2. For every schedule row the return-date inference is: the parsed
    explicit [Expected Return Date] if it parses; otherwise [S. End] plus 10
    days; otherwise [S. Start] plus 30 days; otherwise the ship date already
    computed plus 30 days; otherwise null; and in the three fallback cases
    the declared year is forced onto a result of another year with no
    ordering check. *)
Theorem calculateReturnDate_rules (row : Row) (shipDate : option Date) :
  _calculateReturnDate LocalTZA parseDate row shipDate = returnDateSpec row shipDate.
Proof.
  unfold _calculateReturnDate, returnDateSpec, parsedField.
  destruct (parsed parseDate (field row "Expected Return Date") (field row "Year"));
    [reflexivity|].
  destruct (parsed parseDate (field row "S. End") (field row "Year")) as [sEnd|].
  { f_equal. apply return_adjust_agrees. }
  destruct (parsed parseDate (field row "S. Start") (field row "Year")) as [sStart|].
  { f_equal. apply return_adjust_agrees. }
  destruct shipDate as [ship|]; [|reflexivity].
  f_equal. apply return_adjust_agrees.
Qed.

End Rules.

(** A show that starts on 5 January 2025 ships on 22 December 2024: forcing
    the declared year would put the ship date after the show. *)
Example calculateShipDate_january :
  _calculateShipDate Fixture.LocalTZA Fixture.parseDate Fixture.january
  = Some (dateAtMidnight 0 "2024-12-22").
Proof. vm_compute. reflexivity. Qed.

(** The same show returns on 4 February 2025, thirty days after its start. *)
Example calculateReturnDate_january :
  _calculateReturnDate Fixture.LocalTZA Fixture.parseDate Fixture.january None
  = Some (dateAtMidnight 0 "2025-02-04").
Proof. vm_compute. reflexivity. Qed.

End DateInference.

(** ** Overlap filtering (specification 4.2) *)

Module Overlap.
Import JS Calendar DateObj ProductionUtils.

(** Results of computations, whatever they read. *)
Lemma fst_bind {A B : Type} (m : M A) (f : A -> M B) :
  fst (bind m f) = fst (f (fst m)).
Proof. reflexivity. Qed.

Lemma fst_mapM {A B : Type} (f : A -> M B) (l : list A) :
  fst (mapM f l) = map (fun a => fst (f a)) l.
Proof.
  induction l as [|a l IH]; [reflexivity|].
  cbn [mapM map]. rewrite !fst_bind. cbn. now rewrite IH.
Qed.

Lemma at_index_indexOf {A B : Type} `{EqDecision A} (g : A -> B) (x : A) (l : list A) :
  In x l -> at_index (map g l) (indexOf x l) = Some (g x).
Proof.
  induction l as [|a l IH]; [intros []|].
  intros Hin. cbn [indexOf]. destruct (decide (a = x)) as [->|Hne]; [reflexivity|].
  destruct Hin as [->|Hin]; [contradiction|].
  specialize (IH Hin). destruct (indexOf x l) as [n|]; [|discriminate].
  exact IH.
Qed.

Lemma parseInt_truthy (v : JsValue) (y : Z) : parseInt v = Fin y -> truthy v = true.
Proof.
  destruct v as [| |[|c s]]; try discriminate. reflexivity.
Qed.

(** [Math.min] and [Math.max] of years: a number exactly when every year
    is one, and then a bound that some year attains. *)
Lemma Math_min_Fin (l : list Num) (a : Z) :
  Math_min l = Fin a ->
  In (Fin a) l /\ forall n, In n l -> exists z, n = Fin z /\ a <= z.
Proof.
  revert a. induction l as [|x l IH]; [discriminate|].
  intros a. destruct l as [|x' l'].
  - cbn. intros ->. split; [now left|]. intros n [<-|[]]. exists a. split; [reflexivity|lia].
  - change (Math_min (x :: x' :: l')) with
      (match x, Math_min (x' :: l') with
       | Fin p, Fin q => Fin (Z.min p q) | _, _ => NaN end).
    destruct x as [|p]; [discriminate|].
    destruct (Math_min (x' :: l')) as [|q] eqn:E; [discriminate|].
    intros [= <-]. destruct (IH q eq_refl) as [Hin Hall]. split.
    + destruct (Z.min_spec p q) as [[_ ->]|[_ ->]]; [now left|now right].
    + intros n [<-|Hn].
      * exists p. split; [reflexivity|lia].
      * destruct (Hall n Hn) as (z & -> & Hz). exists z. split; [reflexivity|lia].
Qed.

Lemma Math_max_Fin (l : list Num) (b : Z) :
  Math_max l = Fin b ->
  In (Fin b) l /\ forall n, In n l -> exists z, n = Fin z /\ z <= b.
Proof.
  revert b. induction l as [|x l IH]; [discriminate|].
  intros b. destruct l as [|x' l'].
  - cbn. intros ->. split; [now left|]. intros n [<-|[]]. exists b. split; [reflexivity|lia].
  - change (Math_max (x :: x' :: l')) with
      (match x, Math_max (x' :: l') with
       | Fin p, Fin q => Fin (Z.max p q) | _, _ => NaN end).
    destruct x as [|p]; [discriminate|].
    destruct (Math_max (x' :: l')) as [|q] eqn:E; [discriminate|].
    intros [= <-]. destruct (IH q eq_refl) as [Hin Hall]. split.
    + destruct (Z.max_spec p q) as [[_ ->]|[_ ->]]; [now right|now left].
    + intros n [<-|Hn].
      * exists p. split; [reflexivity|lia].
      * destruct (Hall n Hn) as (z & -> & Hz). exists z. split; [reflexivity|lia].
Qed.

Lemma Math_min_total (l : list Num) :
  l <> [] -> (forall n, In n l -> exists z, n = Fin z) -> exists a, Math_min l = Fin a.
Proof.
  induction l as [|x l IH]; [congruence|]. intros _ Hall.
  destruct (Hall x (or_introl eq_refl)) as [p ->].
  destruct l as [|x' l']; [now exists p|].
  destruct IH as [q Hq]; [congruence|intros n Hn; apply Hall; now right|].
  exists (Z.min p q).
  change (Math_min (Fin p :: x' :: l')) with
    (match Fin p, Math_min (x' :: l') with
     | Fin p, Fin q => Fin (Z.min p q) | _, _ => NaN end).
  now rewrite Hq.
Qed.

Lemma Math_max_total (l : list Num) :
  l <> [] -> (forall n, In n l -> exists z, n = Fin z) -> exists b, Math_max l = Fin b.
Proof.
  induction l as [|x l IH]; [congruence|]. intros _ Hall.
  destruct (Hall x (or_introl eq_refl)) as [p ->].
  destruct l as [|x' l']; [now exists p|].
  destruct IH as [q Hq]; [congruence|intros n Hn; apply Hall; now right|].
  exists (Z.max p q).
  change (Math_max (Fin p :: x' :: l')) with
    (match Fin p, Math_max (x' :: l') with
     | Fin p, Fin q => Fin (Z.max p q) | _, _ => NaN end).
  now rewrite Hq.
Qed.

Lemma elem_of_yearLoop (n lo hi : Num) :
  n ∈ yearLoop lo hi <->
  exists y a b, n = Fin y /\ lo = Fin a /\ hi = Fin b /\ a <= y <= b.
Proof.
  unfold yearLoop. split.
  - destruct lo as [|a], hi as [|b]; try (intros H; now apply elem_of_nil in H).
    intros (y & -> & Hy)%list_elem_of_fmap. apply elem_of_seqZ in Hy.
    exists y, a, b. repeat split; lia.
  - intros (y & a & b & -> & -> & -> & Hy).
    apply list_elem_of_fmap. exists y. split; [reflexivity|].
    apply elem_of_seqZ. lia.
Qed.

Section Filters.

Variable LocalTZA : Z.
Variable now : Z.
Variable parseDate : JsValue -> bool -> JsValue -> option Z.
Variable GetTopFuzzyMatch :
  JsValue -> list string -> list string -> option Qc -> option string.
Variable SearchParams : Type.
Variable searchFilter : list Row -> SearchParams -> list Row.
Variable Database_raw : string -> option (list (list JsValue)).
Variable Database_rows : string -> gmap string string -> list Row.

(** The ship date and the return date the code computes for a row. *)
Definition rowShipDate (row : Row) : option Date :=
  _calculateShipDate LocalTZA parseDate row.

Definition rowReturnDate (row : Row) : option Date :=
  _calculateReturnDate LocalTZA parseDate row (rowShipDate row).

(** The row's own date for a column of a filter. *)
Definition rowDate (row : Row) (column : string) : option Date :=
  getRowDate LocalTZA parseDate row column.

(** The identifier the scan computes for a row; a row that lacks [Show],
    [Client] or [Year] is passed over and has none. *)
Definition rowIdentifier (row : Row) : option string :=
  if truthy (field row "Show") && truthy (field row "Client") && truthy (field row "Year")
  then Some (fst (computeIdentifier GetTopFuzzyMatch Database_rows
                    (field row "Show") (field row "Client") (field row "Year")))
  else None.

Definition hasIdentifier (v : string) (row : Row) : bool :=
  match rowIdentifier row with
  | Some i => String.eqb i v
  | None => false
  end.

(** The target date of a filter against an identifier row, as the
    specification lists the cases. *)
Definition identifierTargetSpec (filter : DateFilter) (row : Row) : option Date :=
  if String.eqb (column filter) "Ship" && String.eqb (type filter) "before"
  then rowReturnDate row
  else if String.eqb (column filter) "Return" && String.eqb (type filter) "after"
  then rowShipDate row
  else rowDate row (column filter).

(** The date a filter resolves to over the rows [data]. *)
Definition resolvedDate (data : list Row) (filter : DateFilter) : option Date :=
  fst (resolveFilterValue LocalTZA now parseDate GetTopFuzzyMatch Database_rows filter data).

(** C3. A filter value that is a string and not of the form YYYY-MM-DD is
    an identifier: the rows are scanned for the first one whose computed
    identifier equals it; the target date is then that row's return date
    for a filter (Ship, before), its ship date for a filter (Return, after),
    and its own date for the filter's column otherwise; with no such row
    the target date is null. *)
Theorem resolveFilterValue_identifier (filter : DateFilter) (v : string) (data : list Row) :
  value filter = FStr v ->
  isIsoDate v = false ->
  resolvedDate data filter
  = match List.find (hasIdentifier v) data with
    | Some row => identifierTargetSpec filter row
    | None => None
    end.
Proof.
  intros Hv Hiso. unfold resolvedDate, resolveFilterValue.
  rewrite Hv, Hiso.
  induction data as [|row rest IH]; [reflexivity|].
  cbn [resolveIdentifier List.find].
  unfold hasIdentifier at 1, rowIdentifier.
  destruct (truthy (field row "Show") && truthy (field row "Client")
            && truthy (field row "Year")); [|exact IH].
  rewrite fst_bind.
  destruct (String.eqb _ v); [|exact IH].
  unfold identifierTargetSpec, rowReturnDate, rowShipDate, rowDate.
  destruct (String.eqb (column filter) "Ship" && String.eqb (type filter) "before");
    [reflexivity|].
  now destruct (String.eqb (column filter) "Return" && String.eqb (type filter) "after").
Qed.

(** The rows the date filters run over: the schedule as loaded, narrowed
    by the text search when one is given. *)
Definition loadedRows (searchParams : option SearchParams) : list Row :=
  let mapping := fst (GetMappingFromProductionSchedule Database_raw) in
  let data := Database_rows "ProductionSchedule" mapping in
  match searchParams with
  | Some sp => searchFilter data sp
  | None => data
  end.

(** The rows [getOverlappingShows] returns for a list of date filters. *)
Definition overlappingShows (filters : list DateFilter)
    (searchParams : option SearchParams) : list Row :=
  fst (getOverlappingShows LocalTZA now parseDate GetTopFuzzyMatch SearchParams
         searchFilter Database_raw Database_rows
         (Some {| dateFilters := Some filters |}) searchParams).

(** A year lies in the span the resolved dates cover when it is between
    the years of two of them; a resolved date without a year (an Invalid
    Date) leaves no span. *)
Definition yearInSpan (dates : list (option Date)) (y : Z) : Prop :=
  (forall d, In (Some d) dates -> exists yd, getFullYear LocalTZA d = Fin yd) /\
  exists d1 d2 y1 y2,
    In (Some d1) dates /\ In (Some d2) dates /\
    getFullYear LocalTZA d1 = Fin y1 /\ getFullYear LocalTZA d2 = Fin y2 /\
    y1 <= y <= y2.

(** The comparison a filter type asks for; a type that is neither asks
    for none. *)
Definition comparisonHolds (type : string) (rowDate filterDate : Date) : Prop :=
  if String.eqb type "after" then date_geb rowDate filterDate = true
  else if String.eqb type "before" then date_leb rowDate filterDate = true
  else True.

Definition passesFilter (data : list Row) (row : Row) (filter : DateFilter) : Prop :=
  exists rd fd,
    rowDate row (column filter) = Some rd /\
    resolvedDate data filter = Some fd /\
    comparisonHolds (type filter) rd fd.

Lemma overlappingShows_eq (f : DateFilter) (fs : list DateFilter)
    (searchParams : option SearchParams) :
  overlappingShows (f :: fs) searchParams
  = let data := loadedRows searchParams in
    let filterDates := map (resolvedDate data) (f :: fs) in
    let validDates := omap (M := list) id filterDates in
    if (List.length validDates =? 0)%nat then []
    else List.filter
           (keepRow LocalTZA parseDate (f :: fs) filterDates
              (yearLoop (Math_min (map (getFullYear LocalTZA) validDates))
                        (Math_max (map (getFullYear LocalTZA) validDates))))
           data.
Proof.
  unfold overlappingShows, getOverlappingShows.
  rewrite !fst_bind. cbn [mbind option_bind dateFilters].
  rewrite fst_bind, fst_mapM.
  fold (loadedRows searchParams). cbv zeta.
  change (map (fun a => fst (resolveFilterValue LocalTZA now parseDate GetTopFuzzyMatch
                               Database_rows a (loadedRows searchParams))) (f :: fs))
    with (map (resolvedDate (loadedRows searchParams)) (f :: fs)).
  now destruct (List.length _ =? 0)%nat.
Qed.

(** What the row test of [data.filter] amounts to. *)
Lemma keepRow_true (filters : list DateFilter) (data : list Row)
    (years : list Num) (row : Row) :
  keepRow LocalTZA parseDate filters (map (resolvedDate data) filters) years row = true <->
  truthy (field row "Year") = true /\
  parseInt (field row "Year") ∈ years /\
  Forall (passesFilter data row) filters.
Proof.
  unfold keepRow.
  assert (Hall : forall sub, (forall g, In g sub -> In g filters) ->
    forallb (fun filter =>
      match getRowDate LocalTZA parseDate row (column filter) with
      | None => false
      | Some rd =>
          match at_index (map (resolvedDate data) filters) (indexOf filter filters) with
          | None | Some None => false
          | Some (Some fd) =>
              if String.eqb (type filter) "after" then date_geb rd fd
              else if String.eqb (type filter) "before" then date_leb rd fd
              else true
          end
      end) sub = true <-> Forall (passesFilter data row) sub).
  { induction sub as [|g sub IH]; intros Hsub.
    - split; [constructor|reflexivity].
    - cbn [forallb]. rewrite andb_true_iff, Forall_cons_iff, IH
        by (intros h Hh; apply Hsub; now right).
      apply and_iff_compat_r.
      rewrite (at_index_indexOf (resolvedDate data) g filters)
        by (apply Hsub; now left).
      unfold passesFilter, comparisonHolds, rowDate.
      destruct (getRowDate LocalTZA parseDate row (column g)) as [rd|].
      2:{ split; [discriminate|]. now intros (? & ? & ? & _). }
      destruct (resolvedDate data g) as [fd|].
      2:{ split; [discriminate|]. now intros (? & ? & _ & ? & _). }
      split.
      + intros H. exists rd, fd. repeat split.
        destruct (String.eqb (type g) "after"); [exact H|].
        now destruct (String.eqb (type g) "before").
      + intros (rd' & fd' & [= <-] & [= <-] & H).
        destruct (String.eqb (type g) "after"); [exact H|].
        now destruct (String.eqb (type g) "before"). }
  destruct (truthy (field row "Year")); cbn [negb orb].
  2:{ split; [discriminate|]. now intros [? _]. }
  destruct (bool_decide _) eqn:E; cbn [negb].
  - apply bool_decide_eq_true in E. rewrite Hall by auto. tauto.
  - apply bool_decide_eq_false in E. split; [discriminate|]. now intros (_ & ? & _).
Qed.

(** C4. With a non-empty list of date filters, a row is in the result if
    and only if its [Year] parses to an integer within the span of years
    the resolved filter dates cover and, for every filter, the row's own
    date for the filter's column and the filter's resolved date are both
    non-null and the comparison of the filter's type holds between them. *)
Theorem getOverlappingShows_includes (f : DateFilter) (fs : list DateFilter)
    (searchParams : option SearchParams) (row : Row) :
  In row (overlappingShows (f :: fs) searchParams) <->
  In row (loadedRows searchParams) /\
  (exists y, parseInt (field row "Year") = Fin y /\
             yearInSpan (map (resolvedDate (loadedRows searchParams)) (f :: fs)) y) /\
  Forall (passesFilter (loadedRows searchParams) row) (f :: fs).
Proof.
  rewrite overlappingShows_eq. cbv zeta.
  set (data := loadedRows searchParams).
  set (dates := map (resolvedDate data) (f :: fs)).
  set (valid := omap (M := list) id dates).
  assert (Hvalid : forall d, In d valid <-> In (Some d) dates).
  { intros d. unfold valid. rewrite <- !list_elem_of_In, list_elem_of_omap. split.
    - intros (o & Ho & Hid). unfold id in Hid. now subst o.
    - intros Hd. now exists (Some d). }
  split.
  - destruct (List.length valid =? 0)%nat; [intros []|].
    unfold dates at 1.
    rewrite filter_In, keepRow_true. intros (Hin & _ & Hyear & Hpass).
    split; [exact Hin|]. split; [|exact Hpass].
    apply elem_of_yearLoop in Hyear as (y & a & b & Hy & Ha & Hb & Hle).
    exists y. split; [exact Hy|].
    apply Math_min_Fin in Ha as [Hina Halla].
    apply Math_max_Fin in Hb as [Hinb _].
    apply in_map_iff in Hina as (d1 & Hd1 & Hin1).
    apply in_map_iff in Hinb as (d2 & Hd2 & Hin2).
    split.
    + intros d Hd. apply Hvalid in Hd.
      destruct (Halla (getFullYear LocalTZA d)) as (z & Hz & _); [now apply in_map|].
      now exists z.
    + exists d1, d2, a, b. rewrite <- !Hvalid. now repeat split.
  - intros (Hin & (y & Hy & Hallyears & d1 & d2 & y1 & y2 & H1 & H2 & Hy1 & Hy2 & Hle) & Hpass).
    assert (Hne : valid <> []).
    { apply Hvalid in H1. intros E. rewrite E in H1. destruct H1. }
    destruct valid as [|v0 valid'] eqn:Ev; [congruence|]. cbn [List.length Nat.eqb].
    rewrite <- Ev in *. clear Ev v0 valid'.
    unfold dates at 1.
    rewrite filter_In, keepRow_true. split; [exact Hin|].
    split; [now apply parseInt_truthy with y|]. split; [|exact Hpass].
    assert (Hfin : forall n, In n (map (getFullYear LocalTZA) valid) -> exists z, n = Fin z).
    { intros n (d & <- & Hd)%in_map_iff. apply Hallyears. now apply Hvalid. }
    assert (Hne' : map (getFullYear LocalTZA) valid <> []).
    { destruct valid; [congruence|discriminate]. }
    destruct (Math_min_total _ Hne' Hfin) as [a Ha].
    destruct (Math_max_total _ Hne' Hfin) as [b Hb].
    rewrite Hy. apply elem_of_yearLoop. exists y, a, b. repeat split; try assumption.
    + apply Math_min_Fin in Ha as [_ Ha].
      destruct (Ha (Fin y1)) as (z & [= <-] & Hz); [|lia].
      rewrite <- Hy1. apply in_map. now apply Hvalid.
    + apply Math_max_Fin in Hb as [_ Hb].
      destruct (Hb (Fin y2)) as (z & [= <-] & Hz); [|lia].
      rewrite <- Hy2. apply in_map. now apply Hvalid.
Qed.

(** C8. With a non-empty list of date filters, the result is empty
    whenever no filter value resolves to a date. *)
Theorem getOverlappingShows_unresolved (f : DateFilter) (fs : list DateFilter)
    (searchParams : option SearchParams) :
  (forall g, In g (f :: fs) -> resolvedDate (loadedRows searchParams) g = None) ->
  overlappingShows (f :: fs) searchParams = [].
Proof.
  intros Hnone. rewrite overlappingShows_eq. cbv zeta.
  replace (omap (M := list) id (map (resolvedDate (loadedRows searchParams)) (f :: fs)))
    with (@nil Date); [reflexivity|].
  symmetry. generalize (f :: fs) Hnone. clear.
  induction l as [|g l IH]; intros Hnone; [reflexivity|].
  cbn [map]. rewrite (Hnone g (or_introl eq_refl)).
  cbn. apply IH. intros h Hh. apply Hnone. now right.
Qed.

(** C10. With a non-empty list of date filters, a row whose [Year] is
    missing, empty or does not parse to an integer is not in the result,
    whatever its dates are. *)
Theorem getOverlappingShows_needs_year (f : DateFilter) (fs : list DateFilter)
    (searchParams : option SearchParams) (row : Row) :
  truthy (field row "Year") = false \/ parseInt (field row "Year") = NaN ->
  ~ In row (overlappingShows (f :: fs) searchParams).
Proof.
  intros Hyear. rewrite overlappingShows_eq. cbv zeta.
  destruct (List.length _ =? 0)%nat; [intros []|].
  rewrite filter_In, keepRow_true. intros (_ & Htruthy & Hloop & _).
  destruct Hyear as [Hfalsy|Hnan]; [congruence|].
  apply elem_of_yearLoop in Hloop as (y & ? & ? & Hy & _). congruence.
Qed.

End Filters.

(** The identifier "ACME 2025 SUMMIT" names the first row of the example
    schedule; a filter (Ship, before) against it resolves to that row's
    return date, 1 July 2025. *)
Lemma resolveFilterValue_identifier_example :
  resolvedDate Fixture.LocalTZA Fixture.now Fixture.parseDate Fixture.GetTopFuzzyMatch
    Fixture.Database_rows [Fixture.summit; Fixture.expo] Fixture.shipBeforeSummit
  = Some (dateAtMidnight 0 "2025-07-01").
Proof.
  rewrite (resolveFilterValue_identifier Fixture.LocalTZA Fixture.now Fixture.parseDate
             Fixture.GetTopFuzzyMatch Fixture.Database_rows
             Fixture.shipBeforeSummit "ACME 2025 SUMMIT" [Fixture.summit; Fixture.expo]
             eq_refl eq_refl).
  vm_compute. reflexivity.
Defined.

(** No row of the example schedule has the identifier "NOBODY 2025
    NOWHERE": the filter resolves to nothing and the result is empty. *)
Lemma getOverlappingShows_unresolved_example :
  overlappingShows Fixture.LocalTZA Fixture.now Fixture.parseDate Fixture.GetTopFuzzyMatch
    unit Fixture.searchFilter Fixture.Database_raw Fixture.Database_rows
    [Fixture.shipBeforeNobody] None
  = [].
Proof.
  apply (getOverlappingShows_unresolved Fixture.LocalTZA Fixture.now Fixture.parseDate
           Fixture.GetTopFuzzyMatch unit Fixture.searchFilter Fixture.Database_raw
           Fixture.Database_rows Fixture.shipBeforeNobody [] None).
  intros g [<-|[]]. vm_compute. reflexivity.
Defined.

(** The row of the example schedule that has no [Year] is left out, though
    its ship date passes the filter. *)
Lemma getOverlappingShows_needs_year_example :
  ~ In Fixture.undated
      (overlappingShows Fixture.LocalTZA Fixture.now Fixture.parseDate
         Fixture.GetTopFuzzyMatch unit Fixture.searchFilter Fixture.Database_raw
         Fixture.Database_rows [Fixture.shipBeforeSummit] None).
Proof.
  apply (getOverlappingShows_needs_year Fixture.LocalTZA Fixture.now Fixture.parseDate
           Fixture.GetTopFuzzyMatch unit Fixture.searchFilter Fixture.Database_raw
           Fixture.Database_rows Fixture.shipBeforeSummit [] None Fixture.undated).
  left. reflexivity.
Defined.

(** The rows of the example schedule that ship on or before the day the
    summit returns. *)
Example getOverlappingShows_example :
  overlappingShows Fixture.LocalTZA Fixture.now Fixture.parseDate Fixture.GetTopFuzzyMatch
    unit Fixture.searchFilter Fixture.Database_raw Fixture.Database_rows
    [Fixture.shipBeforeSummit] None
  = [Fixture.summit; Fixture.expo].
Proof. vm_compute. reflexivity. Qed.

(** Against the literal date 1 June 2025, the rows that ship on 27 May and
    on 15 May pass and the row that ships on 2 July does not. *)
Example getOverlappingShows_literal_date :
  overlappingShows Fixture.LocalTZA Fixture.now Fixture.parseDate Fixture.GetTopFuzzyMatch
    unit Fixture.searchFilter Fixture.Database_raw Fixture.Database_rows
    [Fixture.shipBeforeJune] None
  = [Fixture.summit; Fixture.expo].
Proof. vm_compute. reflexivity. Qed.

End Overlap.

(** ** Blank text *)

Module StringFacts.
Import JS.

(** Every character of the string is white space. *)
Fixpoint allWhiteSpace (s : string) : bool :=
  match s with
  | EmptyString => true
  | String c r => isWhiteSpace c && allWhiteSpace r
  end.

Lemma trimEnd_nonblank (c : ascii) (r : string) :
  isWhiteSpace c = false -> isEmpty (trimEnd (String c r)) = false.
Proof.
  intros Hc. cbn [trimEnd]. rewrite Hc. now destruct (trimEnd r).
Qed.

(** A string trims to nothing exactly when it is all white space. *)
Lemma trim_empty (s : string) : isEmpty (trim s) = allWhiteSpace s.
Proof.
  unfold trim. induction s as [|c r IH]; [reflexivity|].
  cbn [trimStart allWhiteSpace].
  destruct (isWhiteSpace c) eqn:Hc; [exact IH|].
  now apply trimEnd_nonblank.
Qed.

(** A cell is blank when it is absent, null, empty or white space only. *)
Definition isBlank (v : JsValue) : bool :=
  match v with
  | VStr s => allWhiteSpace s
  | VUndef | VNull => true
  end.

(** The text of a cell, nothing for an absent or null one. *)
Definition rawText (v : JsValue) : string :=
  match v with
  | VStr s => s
  | VUndef | VNull => ""
  end.

Lemma blank_test (v : JsValue) :
  negb (truthy v) || isEmpty (trim (toString v)) = isBlank v.
Proof.
  destruct v as [| |s]; try reflexivity.
  cbn [truthy toString isBlank]. rewrite trim_empty.
  now destruct s.
Qed.

Lemma orEmpty_rawText (v : JsValue) : ProductionUtils.orEmpty v = rawText v.
Proof.
  now destruct v as [| |[|c s]].
Qed.

End StringFacts.

(** ** Identifiers (specification 4.3) *)

Module Identifier.
Import JS ProductionUtils StringFacts.

Section Identifier.

Variable GetTopFuzzyMatch :
  JsValue -> list string -> list string -> option Qc -> option string.
Variable Database_rows : string -> gmap string string -> list Row.

(** The reference lists: canonical names and abbreviations of the clients
    and of the shows. *)
Definition referenceLists : (list string * list string) * (list string * list string) :=
  fst (computeIdentifierReferenceData Database_rows).

(** A fuzzy match, or the raw input when the matcher throws. *)
Definition matchOrRaw (input : JsValue) (lists : list string * list string)
    (threshold : option Qc) : string :=
  match GetTopFuzzyMatch input (fst lists) (snd lists) threshold with
  | Some m => m
  | None => rawText input
  end.

(** C7. [computeIdentifier] returns the empty string at once, reading no
    reference data, when [showName] is blank (null, empty or white space
    only); otherwise the result is "<clientMatch> <year> <showMatch>"
    trimmed, where a match that throws is replaced by the raw input and a
    missing year is an empty segment. *)
Theorem computeIdentifier_result (showName clientName year : JsValue) :
  let r := computeIdentifier GetTopFuzzyMatch Database_rows showName clientName year in
  if isBlank showName
  then r = ("", [])
  else fst r = trim (matchOrRaw clientName (fst referenceLists) None
                     ++ " " ++ rawText year ++ " "
                     ++ matchOrRaw showName (snd referenceLists) (Some (Q2Qc (5 # 2))))
       /\ (year = VUndef \/ year = VNull ->
           fst r = trim (matchOrRaw clientName (fst referenceLists) None
                         ++ "  "
                         ++ matchOrRaw showName (snd referenceLists) (Some (Q2Qc (5 # 2))))).
Proof.
  cbv zeta. unfold computeIdentifier. rewrite blank_test.
  destruct (isBlank showName); [reflexivity|].
  rewrite Overlap.fst_bind. fold referenceLists.
  destruct referenceLists as [[cn ca] [sn sa]].
  unfold matchOrRaw. cbn [fst snd ret]. rewrite !orEmpty_rawText.
  split; [reflexivity|].
  now intros [->| ->].
Qed.

End Identifier.

End Identifier.

(** ** guessShipDate *)

Module GuessShip.
Import JS Calendar DateObj ProductionUtils StringFacts CalendarFacts.

(** A number below 100 written with exactly two decimal digits. *)
Definition twoDigits (n : Z) : string :=
  String (ascii_of_N (48 + Z.to_N (n / 10)))
    (String (ascii_of_N (48 + Z.to_N (n mod 10))) EmptyString).

(** Month, day and year of a local time value as the code writes them:
    month and day zero-padded to two digits, the year as its decimal
    numeral, not padded. *)
Definition formatMDY (localTime : Z) : string :=
  twoDigits (MonthFromTime localTime + 1) ++ "/"
  ++ twoDigits (DateFromTime localTime) ++ "/"
  ++ Z_toString (YearFromTime localTime).

(** The [Ship] cell holds something other than white space. *)
Definition explicitlySet (v : JsValue) : bool := negb (isBlank v).

Lemma pad2_twoDigits (n : Z) : 0 <= n < 100 -> pad2 (Fin n) = twoDigits n.
Proof.
  intros Hn.
  assert (Hall : forallb (fun k => String.eqb (pad2 (Fin k)) (twoDigits k)) (seqZ 0 100) = true)
    by (vm_compute; reflexivity).
  rewrite forallb_forall in Hall.
  apply String.eqb_eq, Hall, list_elem_of_In, elem_of_seqZ. lia.
Qed.

Section Guess.

Variable LocalTZA : Z.
Variable parseDate : JsValue -> bool -> JsValue -> option Z.

(** The inferred ship date is never an Invalid Date. *)
Lemma calculateShipDate_valid (row : Row) (d : Date) :
  _calculateShipDate LocalTZA parseDate row = Some d -> exists t, getTime d = Fin t.
Proof.
  assert (Hadj : forall (anchor : Date) (n : Z) (b : bool) (a : Z),
    getTime anchor = Fin a ->
    exists t, getTime
      (let ship := addDays anchor n in
       if b then let adj := setFullYear LocalTZA ship (Number (field row "Year")) in
                 if date_ltb adj anchor then adj else ship
       else ship) = Fin t).
  { intros anchor n b a Ha. cbv zeta.
    assert (Hs : exists t, getTime (addDays anchor n) = Fin t)
      by (unfold addDays; cbn; rewrite Ha; cbn; eauto).
    destruct b; [|exact Hs].
    destruct (date_ltb _ anchor) eqn:E; [|exact Hs].
    unfold date_ltb, num_ltb in E.
    destruct (getTime (setFullYear _ _ _)) as [|t]; [discriminate|eauto]. }
  unfold _calculateShipDate, parsed.
  destruct (parseDate (field row "Ship") true _) as [t|]; cbn [fmap option_fmap option_map].
  { intros [= <-]. eauto. }
  destruct (parseDate (field row "S. Start") true _) as [t|]; cbn [fmap option_fmap option_map].
  { intros [= <-]. now apply Hadj with t. }
  destruct (parseDate (field row "S. End") true _) as [t|]; cbn [fmap option_fmap option_map].
  { intros [= <-]. now apply Hadj with t. }
  discriminate.
Qed.

(** What [guessShipDate] returns: the [Ship] cell unchanged when it is
    explicitly set (not blank); otherwise the inferred ship date, which is
    never an Invalid Date, with month and day zero-padded to two digits and
    the year as its numeral, or null when no ship date can be inferred. *)
Lemma guessShipDate_format (row : Row) :
  (explicitlySet (field row "Ship") = true ->
   guessShipDate LocalTZA parseDate row = field row "Ship") /\
  (explicitlySet (field row "Ship") = false ->
   match _calculateShipDate LocalTZA parseDate row with
   | None => guessShipDate LocalTZA parseDate row = VNull
   | Some d =>
       exists t, getTime d = Fin t /\
         guessShipDate LocalTZA parseDate row = VStr (formatMDY (LocalTime LocalTZA t)) /\
         1 <= MonthFromTime (LocalTime LocalTZA t) + 1 <= 12 /\
         1 <= DateFromTime (LocalTime LocalTZA t) <= 31
   end).
Proof.
  unfold guessShipDate, explicitlySet.
  pose proof (blank_test (field row "Ship")) as Hb.
  assert (Hset : truthy (field row "Ship")
                 && negb (isEmpty (trim (toString (field row "Ship"))))
                 = negb (isBlank (field row "Ship"))).
  { rewrite <- Hb. now destruct (truthy _), (isEmpty _). }
  rewrite Hset. split; intros ->; [reflexivity|].
  destruct (_calculateShipDate LocalTZA parseDate row) as [d|] eqn:E; [|reflexivity].
  destruct (calculateShipDate_valid row d E) as [t Ht].
  exists t. split; [exact Ht|].
  pose proof (MonthFromTime_bounds (LocalTime LocalTZA t)) as Hm.
  pose proof (DateFromTime_bounds (LocalTime LocalTZA t)) as Hd.
  split; [|lia].
  unfold getMonth, getDate, getFullYear, formatMDY. rewrite Ht.
  cbn [num_add Num_toString].
  now rewrite !pad2_twoDigits by lia.
Qed.

End Guess.

(** A show that starts on 5 January 2025, in a row whose [Year] cell is
    empty. *)
Definition noYear : Row :=
  {[ "Year" := VStr ""; "S. Start" := VStr "2025-01-05" ]}.

(** C9 at the row [noYear].  Its [Ship] cell is not set.  The empty [Year]
    reads as the number 0; fourteen days before the start is 22 December
    2024, and the year 0 forced onto it is still before the start, so the
    inferred ship date is 22 December of the year 0.  Month and day are
    padded to two digits but the year is not padded: the result is
    "12/22/0", which is not of the form MM/DD/YYYY. *)
Theorem guessShipDate_year_not_padded :
  explicitlySet (field noYear "Ship") = false
  /\ Number (field noYear "Year") = DInt 0
  /\ _calculateShipDate Fixture.LocalTZA Fixture.parseDate noYear
     = Some (dateAtMidnight Fixture.LocalTZA "0000-12-22")
  /\ guessShipDate Fixture.LocalTZA Fixture.parseDate noYear = VStr "12/22/0".
Proof. vm_compute. repeat split. Qed.

End GuessShip.

(** ** Search and highlighting (specification 4.4) *)

Module Highlight.
Import JS UseSearch.

Local Open Scope nat_scope.
Local Open Scope list_scope.

(** *** What the specification describes *)

(** The entity each character is escaped to. *)
Definition escapeChar (c : ascii) : list ascii :=
  if Ascii.eqb c "&" then list_ascii_of_string "&amp;"
  else if Ascii.eqb c "<" then list_ascii_of_string "&lt;"
  else if Ascii.eqb c ">" then list_ascii_of_string "&gt;"
  else if Ascii.eqb c quot then list_ascii_of_string "&quot;"
  else if Ascii.eqb c "'" then list_ascii_of_string "&#039;"
  else [c].

(** The word occurs in [s] at position [i], letter case apart. *)
Definition occursAt (word s : list ascii) (i : nat) : bool :=
  bool_decide (map lowerChar (firstn (List.length word) (skipn i s)) = map lowerChar word).

(** Position [i] lies inside the span of [m]. *)
Definition inside (m : Match) (i : nat) : bool :=
  (start m <=? i) && (i <? end_ m).

(** Position [i] lies inside one of the spans. *)
Definition covered (spans : list Match) (i : nat) : bool :=
  existsb (fun m => inside m i) spans.

(** Position [i] lies inside an occurrence of one of the words. *)
Definition coveredByOccurrence (words : list string) (s : list ascii) (i : nat) : bool :=
  existsb (fun word =>
    let w := list_ascii_of_string word in
    existsb (fun j => occursAt w s j && (j <=? i) && (i <? j + List.length w))
            (seq 0 (List.length s))) words.

(** The occurrences of a word that a scan from left to right takes: going
    through the positions in order, an occurrence is taken when it starts at
    or after [next], the end of the occurrence taken before it. *)
Fixpoint takeOccurrences (w s : list ascii) (next : nat) (positions : list nat) : list nat :=
  match positions with
  | [] => []
  | i :: rest =>
      if (next <=? i) && occursAt w s i
      then i :: takeOccurrences w s (i + List.length w) rest
      else takeOccurrences w s next rest
  end.

Definition scanned (w s : list ascii) : list nat :=
  takeOccurrences w s 0 (seq 0 (List.length s)).

(** The span of the word at position [i], with the characters of the text
    it spans. *)
Definition spanAt (w s : list ascii) (i : nat) : Match :=
  {| start := i; end_ := i + List.length w;
     text := substring s i (i + List.length w) |}.

(** The spans the scans take, word after word. *)
Definition scannedSpans (words : list string) (s : list ascii) : list Match :=
  flat_map (fun word => let w := list_ascii_of_string word in
                        map (spanAt w s) (scanned w s)) words.

(** Positions in order, each at least [n] after the one before and the
    first at [from] or later: spans of length [n] at them do not overlap. *)
Fixpoint apart (n from : nat) (l : list nat) : Prop :=
  match l with
  | [] => True
  | j :: rest => from <= j /\ apart n (j + n) rest
  end.

(** The characters of [s] from position [i] on, each with its mark. *)
Fixpoint markFrom (cover : nat -> bool) (i : nat) (s : list ascii) : list (bool * ascii) :=
  match s with
  | [] => []
  | c :: r => (cover i, c) :: markFrom cover (S i) r
  end.

(** Maximal runs of characters with the same mark. *)
Fixpoint groupRuns (l : list (bool * ascii)) : list (bool * list ascii) :=
  match l with
  | [] => []
  | (b, c) :: r =>
      match groupRuns r with
      | (b', seg) :: gs => if Bool.eqb b b' then (b, c :: seg) :: gs
                           else (b, [c]) :: (b', seg) :: gs
      | [] => [(b, [c])]
      end
  end.

(** A run is escaped, and wrapped in the marker when it is marked. *)
Definition renderRun (run : bool * list ascii) : list ascii :=
  let (marked, seg) := run in
  if marked then spanOpen ++ flat_map escapeChar seg ++ spanClose
  else flat_map escapeChar seg.

Definition renderMarked (l : list (bool * ascii)) : list ascii :=
  flat_map renderRun (groupRuns l).

(** The highlighted text for a cover of its positions: every maximal
    covered run is one marked segment. *)
Definition highlightSpec (cover : nat -> bool) (text : string) : string :=
  string_of_list_ascii (renderMarked (markFrom cover 0 (list_ascii_of_string text))).

(** *** Escaping *)

Lemma replaceAll_flat_map (c : ascii) (by_ : list ascii) (f : ascii -> list ascii)
    (s : list ascii) :
  replaceAll c by_ (flat_map f s) = flat_map (fun x => replaceAll c by_ (f x)) s.
Proof.
  unfold replaceAll. induction s as [|x s IH]; [reflexivity|].
  cbn [flat_map]. now rewrite flat_map_app, IH.
Qed.

Lemma escapeHtmlChars_one (c : ascii) : escapeHtmlChars [c] = escapeChar c.
Proof.
  destruct c as [[] [] [] [] [] [] [] []]; reflexivity.
Qed.

(** The five replacements in sequence escape each character on its own. *)
Lemma escapeHtmlChars_flat_map (s : list ascii) :
  escapeHtmlChars s = flat_map escapeChar s.
Proof.
  unfold escapeHtmlChars.
  replace (replaceAll "&" (list_ascii_of_string "&amp;") s)
    with (flat_map (fun x => replaceAll "&" (list_ascii_of_string "&amp;") [x]) s).
  2:{ unfold replaceAll. apply flat_map_ext. intros a. cbn. now rewrite app_nil_r. }
  rewrite !replaceAll_flat_map.
  apply flat_map_ext. intros c. apply escapeHtmlChars_one.
Qed.

Lemma escapeHtmlChars_app (a b : list ascii) :
  escapeHtmlChars (a ++ b) = escapeHtmlChars a ++ escapeHtmlChars b.
Proof. rewrite !escapeHtmlChars_flat_map. apply flat_map_app. Qed.

(** *** Runs *)

Lemma markFrom_app (cover : nat -> bool) (i : nat) (a b : list ascii) :
  markFrom cover i (a ++ b) = markFrom cover i a ++ markFrom cover (i + List.length a) b.
Proof.
  revert i. induction a as [|c a IH]; intros i.
  - cbn. now rewrite Nat.add_0_r.
  - cbn [markFrom app List.length]. rewrite IH. do 3 f_equal. lia.
Qed.

Lemma markFrom_const (cover : nat -> bool) (b : bool) (i : nat) (a : list ascii) :
  (forall j, i <= j < i + List.length a -> cover j = b) ->
  markFrom cover i a = map (pair b) a.
Proof.
  revert i. induction a as [|c a IH]; intros i H; [reflexivity|].
  cbn [markFrom map]. rewrite H by (cbn; lia). f_equal.
  apply IH. intros j Hj. apply H. cbn. lia.
Qed.

Lemma markFrom_ext (c1 c2 : nat -> bool) (i : nat) (a : list ascii) :
  (forall j, i <= j -> c1 j = c2 j) -> markFrom c1 i a = markFrom c2 i a.
Proof.
  revert i. induction a as [|c a IH]; intros i H; [reflexivity|].
  cbn [markFrom]. rewrite H by lia. f_equal. apply IH. intros j Hj. apply H. lia.
Qed.

(** The list does not begin with a character marked [b]. *)
Definition notHeadedBy (b : bool) (l : list (bool * ascii)) : Prop :=
  match l with
  | [] => True
  | (b', _) :: _ => b' = negb b
  end.

Lemma groupRuns_head (b : bool) (l : list (bool * ascii)) :
  notHeadedBy b l ->
  match groupRuns l with
  | [] => True
  | (b', _) :: _ => b' = negb b
  end.
Proof.
  destruct l as [|[b' c] r]; [trivial|]. cbn [notHeadedBy groupRuns]. intros ->.
  destruct (groupRuns r) as [|[b'' seg] gs]; [reflexivity|].
  now destruct (Bool.eqb (negb b) b'').
Qed.

(** A non-empty stretch of one mark, followed by the other mark or by
    nothing, is one run. *)
Lemma groupRuns_run (b : bool) (x : list ascii) (rest : list (bool * ascii)) :
  x <> [] -> notHeadedBy b rest ->
  groupRuns (map (pair b) x ++ rest) = (b, x) :: groupRuns rest.
Proof.
  intros Hx Hrest. induction x as [|c x IH]; [congruence|].
  destruct x as [|c' x'].
  - cbn [map app groupRuns]. pose proof (groupRuns_head b rest Hrest) as Hh.
    destruct (groupRuns rest) as [|[b' seg] gs]; [reflexivity|].
    subst b'. now destruct b.
  - change (map (pair b) (c :: c' :: x') ++ rest)
      with ((b, c) :: (map (pair b) (c' :: x') ++ rest)).
    cbn [groupRuns]. rewrite IH by congruence.
    now rewrite Bool.eqb_reflx.
Qed.

Lemma renderMarked_unmarked (x : list ascii) (rest : list (bool * ascii)) :
  notHeadedBy false rest ->
  renderMarked (map (pair false) x ++ rest) = escapeHtmlChars x ++ renderMarked rest.
Proof.
  intros Hrest. destruct x as [|c x]; [reflexivity|].
  unfold renderMarked. rewrite groupRuns_run by (congruence || assumption).
  cbn [flat_map renderRun]. now rewrite escapeHtmlChars_flat_map.
Qed.

Lemma renderMarked_marked (x : list ascii) (rest : list (bool * ascii)) :
  x <> [] -> notHeadedBy true rest ->
  renderMarked (map (pair true) x ++ rest)
  = spanOpen ++ escapeHtmlChars x ++ spanClose ++ renderMarked rest.
Proof.
  intros Hx Hrest. unfold renderMarked. rewrite groupRuns_run by assumption.
  cbn [flat_map renderRun]. rewrite escapeHtmlChars_flat_map.
  now rewrite <- !app_assoc.
Qed.

(** *** Sorting and merging the spans *)

Lemma covered_cons (m : Match) (r : list Match) (i : nat) :
  covered (m :: r) i = inside m i || covered r i.
Proof. reflexivity. Qed.

Section Spans.

Variable stringValue : list ascii.

(** A span of the text: not empty, within the text, and carrying the
    characters it spans. *)
Definition wellFormed (m : Match) : Prop :=
  start m < end_ m /\ end_ m <= List.length stringValue
  /\ text m = substring stringValue (start m) (end_ m).

Lemma substring_firstn (a b : nat) :
  a <= b -> substring stringValue a b = firstn (b - a) (skipn a stringValue).
Proof.
  intros H. unfold substring. now rewrite Nat.min_l, Nat.max_r by lia.
Qed.

Lemma covered_insert (m : Match) (l : list Match) (i : nat) :
  covered (insertByStart m l) i = inside m i || covered l i.
Proof.
  induction l as [|x l IH]; [reflexivity|].
  cbn [insertByStart]. destruct (start m <=? start x); [reflexivity|].
  unfold covered in *. cbn [existsb]. rewrite IH.
  now destruct (inside x i), (inside m i).
Qed.

Lemma covered_sort (l : list Match) (i : nat) :
  covered (sortByStart l) i = covered l i.
Proof.
  induction l as [|m l IH]; [reflexivity|].
  cbn [sortByStart]. rewrite covered_insert. unfold covered in *. cbn [existsb]. now rewrite IH.
Qed.

Lemma Forall_insert (P : Match -> Prop) (m : Match) (l : list Match) :
  P m -> Forall P l -> Forall P (insertByStart m l).
Proof.
  intros Hm Hl. induction Hl as [|x l Hx Hl IH]; cbn [insertByStart].
  - now constructor.
  - destruct (start m <=? start x); repeat constructor; assumption.
Qed.

Lemma Forall_sort (P : Match -> Prop) (l : list Match) :
  Forall P l -> Forall P (sortByStart l).
Proof.
  induction 1; cbn [sortByStart]; [constructor|now apply Forall_insert].
Qed.

(** Sorted by start position. *)
Fixpoint sortedByStart (l : list Match) : Prop :=
  match l with
  | [] => True
  | m :: r => Forall (fun x => start m <= start x) r /\ sortedByStart r
  end.

Lemma insert_sorted (m : Match) (l : list Match) :
  sortedByStart l -> sortedByStart (insertByStart m l).
Proof.
  induction l as [|x l IH]; intros Hl.
  - cbn. split; [constructor|trivial].
  - cbn [insertByStart]. destruct (start m <=? start x) eqn:E.
    + apply Nat.leb_le in E. destruct Hl as [Hx Hl]. split; [|now split].
      constructor; [exact E|]. eapply Forall_impl; [exact Hx|]. cbn. intros; lia.
    + apply Nat.leb_gt in E. destruct Hl as [Hx Hl]. split; [|now apply IH].
      apply Forall_insert; [lia|exact Hx].
Qed.

Lemma sort_sorted (l : list Match) : sortedByStart (sortByStart l).
Proof.
  induction l as [|m l IH]; [exact I|]. cbn [sortByStart]. now apply insert_sorted.
Qed.

(** The merging loop, seen from its current last span. *)
Fixpoint mergeFrom (cur : Match) (rest : list Match) : list Match :=
  match rest with
  | [] => [cur]
  | m :: r =>
      if start m <=? end_ cur
      then mergeFrom {| start := start cur; end_ := Nat.max (end_ cur) (end_ m);
                        text := substring stringValue (start cur)
                                  (Nat.max (end_ cur) (end_ m)) |} r
      else cur :: mergeFrom m r
  end.

Lemma mergeLoop_mergeFrom (last : Match) (before rest : list Match) :
  mergeLoop stringValue (last :: before) rest = rev before ++ mergeFrom last rest.
Proof.
  revert last before. induction rest as [|m r IH]; intros last before.
  - reflexivity.
  - cbn [mergeLoop mergeFrom]. destruct (start m <=? end_ last).
    + apply IH.
    + rewrite IH. cbn [rev]. now rewrite <- app_assoc.
Qed.

(** Spans in order, each starting after the end of the one before and not
    touching it; the first starts at [from] or later. *)
Fixpoint separated (from : nat) (l : list Match) : Prop :=
  match l with
  | [] => True
  | m :: r => from <= start m /\ wellFormed m /\ separated (S (end_ m)) r
  end.

Lemma separated_weaken (from from' : nat) (l : list Match) :
  from' <= from -> separated from l -> separated from' l.
Proof.
  destruct l as [|m r]; [trivial|]. cbn [separated].
  intros H (H1 & H2 & H3). split; [lia|]. now split.
Qed.

Lemma separated_uncovered (from : nat) (l : list Match) (i : nat) :
  separated from l -> i < from -> covered l i = false.
Proof.
  revert from. induction l as [|m r IH]; intros from Hs Hi; [reflexivity|].
  destruct Hs as (H1 & (H2 & _) & H3). rewrite !covered_cons.
  rewrite (IH (S (end_ m))) by (assumption || lia).
  unfold inside. rewrite orb_false_r. apply andb_false_iff. left. apply Nat.leb_gt. lia.
Qed.

Lemma mergeFrom_start (cur : Match) (rest : list Match) :
  exists m l, mergeFrom cur rest = m :: l /\ start m = start cur.
Proof.
  revert cur. induction rest as [|x r IH]; intros cur; cbn [mergeFrom].
  - now exists cur, [].
  - destruct (start x <=? end_ cur).
    + destruct (IH {| start := start cur; end_ := Nat.max (end_ cur) (end_ x);
                      text := substring stringValue (start cur)
                                (Nat.max (end_ cur) (end_ x)) |}) as (m & l & -> & Hm).
      now exists m, l.
    + now exists cur, (mergeFrom x r).
Qed.

(** Merging sorted spans separates them and keeps what they cover. *)
Lemma mergeFrom_spec (rest : list Match) :
  forall (cur : Match) (from : nat),
    wellFormed cur -> Forall wellFormed rest -> sortedByStart rest ->
    Forall (fun x => start cur <= start x) rest -> from <= start cur ->
    separated from (mergeFrom cur rest)
    /\ forall i, covered (mergeFrom cur rest) i = inside cur i || covered rest i.
Proof.
  induction rest as [|m r IH]; intros cur from Hcur Hwf Hsorted Hle Hfrom.
  - cbn. split; [tauto|]. intros i. reflexivity.
  - cbn [mergeFrom]. inversion Hwf as [|? ? Hm Hr]; subst.
    inversion Hle as [|? ? Hcm Hcr]; subst. destruct Hsorted as [Hmr Hsr].
    destruct Hcur as (Hc1 & Hc2 & Hc3). pose proof Hm as (Hm1 & Hm2 & Hm3).
    destruct (start m <=? end_ cur) eqn:E.
    + apply Nat.leb_le in E.
      destruct (IH {| start := start cur; end_ := Nat.max (end_ cur) (end_ m);
                      text := substring stringValue (start cur)
                                (Nat.max (end_ cur) (end_ m)) |} from) as [Hsep Hcov];
        try assumption.
      { unfold wellFormed. cbn. repeat split; [lia|lia]. }
      split; [exact Hsep|]. intros i. rewrite Hcov. rewrite !covered_cons.
      rewrite orb_assoc. f_equal. unfold inside. cbn [start end_].
      destruct (start cur <=? i) eqn:E1, (i <? end_ cur) eqn:E2,
               (start m <=? i) eqn:E3, (i <? end_ m) eqn:E4,
               (i <? Nat.max (end_ cur) (end_ m)) eqn:E5;
        cbn [andb orb]; try reflexivity;
        repeat match goal with
               | H : (_ <=? _) = true |- _ => apply Nat.leb_le in H
               | H : (_ <=? _) = false |- _ => apply Nat.leb_gt in H
               | H : (_ <? _) = true |- _ => apply Nat.ltb_lt in H
               | H : (_ <? _) = false |- _ => apply Nat.ltb_ge in H
               end; lia.
    + apply Nat.leb_gt in E.
      destruct (IH m (S (end_ cur))) as [Hsep Hcov]; try assumption.
      split.
      * cbn [separated]. repeat split; assumption.
      * intros i. rewrite !covered_cons. f_equal. apply Hcov.
Qed.

(** *** Building the result *)

Lemma skipn_split (a b : nat) :
  a <= b -> b <= List.length stringValue ->
  skipn a stringValue = substring stringValue a b ++ skipn b stringValue.
Proof.
  intros Hab Hb. rewrite substring_firstn by exact Hab.
  rewrite <- (firstn_skipn (b - a) (skipn a stringValue)) at 1.
  f_equal. rewrite skipn_skipn. f_equal. lia.
Qed.

Lemma substring_length (a b : nat) :
  a <= b -> b <= List.length stringValue -> List.length (substring stringValue a b) = b - a.
Proof.
  intros Hab Hb. rewrite substring_firstn by exact Hab.
  rewrite length_firstn, length_skipn. lia.
Qed.

Lemma buildLoop_render (merged : list Match) :
  forall (from : nat) (result : list ascii),
    separated from merged -> from <= List.length stringValue ->
    buildLoop stringValue merged result from
    = result ++ renderMarked (markFrom (covered merged) from (skipn from stringValue)).
Proof.
  induction merged as [|m r IH]; intros from result Hsep Hfrom.
  - cbn [buildLoop]. f_equal.
    rewrite (markFrom_const (covered []) false) by reflexivity.
    rewrite <- (app_nil_r (map (pair false) _)).
    rewrite renderMarked_unmarked by exact I. cbn. now rewrite app_nil_r.
  - destruct Hsep as (H1 & (Hm1 & Hm2 & Hm3) & Hr).
    cbn [buildLoop]. rewrite IH by first [lia | eapply separated_weaken; [|exact Hr]; lia].
    rewrite (skipn_split from (start m)) by lia.
    rewrite (skipn_split (start m) (end_ m)) by lia.
    rewrite <- Hm3.
    assert (Hlen1 : List.length (substring stringValue from (start m)) = start m - from)
      by (apply substring_length; lia).
    assert (Hlen2 : List.length (text m) = end_ m - start m)
      by (rewrite Hm3; apply substring_length; lia).
    rewrite !markFrom_app, Hlen1, Hlen2.
    replace (from + (start m - from)) with (start m) by lia.
    replace (start m + (end_ m - start m)) with (end_ m) by lia.
    rewrite (markFrom_const (covered (m :: r)) false from).
    2:{ intros j Hj. rewrite !covered_cons.
        rewrite (separated_uncovered (S (end_ m)) r j Hr) by lia.
        unfold inside. rewrite orb_false_r. apply andb_false_iff. left.
        apply Nat.leb_gt. lia. }
    rewrite (markFrom_const (covered (m :: r)) true (start m)).
    2:{ intros j Hj. rewrite !covered_cons. unfold inside.
        replace (start m <=? j) with true by (symmetry; apply Nat.leb_le; lia).
        replace (j <? end_ m) with true by (symmetry; apply Nat.ltb_lt; lia).
        reflexivity. }
    rewrite (markFrom_ext (covered (m :: r)) (covered r) (end_ m)).
    2:{ intros j Hj. rewrite !covered_cons. unfold inside.
        replace (j <? end_ m) with false by (symmetry; apply Nat.ltb_ge; lia).
        now rewrite andb_false_r. }
    assert (Htext : text m <> []).
    { intros E. rewrite E in Hlen2. cbn in Hlen2. lia. }
    rewrite renderMarked_unmarked.
    2:{ destruct (text m); [congruence|reflexivity]. }
    rewrite renderMarked_marked; [|exact Htext|].
    2:{ destruct (skipn (end_ m) stringValue); [exact I|]. cbn.
        now rewrite (separated_uncovered (S (end_ m)) r (end_ m) Hr) by lia. }
    now rewrite <- !app_assoc.
Qed.

(** Sorting, merging and building render the runs the spans cover. *)
Lemma highlight_pipeline (found : list Match) :
  Forall wellFormed found ->
  buildLoop stringValue (mergeLoop stringValue [] (sortByStart found)) [] 0
  = renderMarked (markFrom (covered found) 0 stringValue).
Proof.
  intros Hwf.
  pose proof (Forall_sort _ _ Hwf) as Hwf'.
  pose proof (sort_sorted found) as Hsorted.
  assert (Hcov : forall i, covered (sortByStart found) i = covered found i)
    by (intros; apply covered_sort).
  destruct (sortByStart found) as [|m rest].
  - cbn [mergeLoop rev]. rewrite buildLoop_render by (exact I || lia).
    cbn [app skipn]. f_equal. apply markFrom_ext. intros j _. apply Hcov.
  - cbn [mergeLoop]. rewrite mergeLoop_mergeFrom. cbn [rev app].
    inversion Hwf' as [|? ? Hm Hr]; subst. destruct Hsorted as [Hle Hs].
    destruct (mergeFrom_spec rest m 0 Hm Hr Hs Hle) as [Hsep Hmerge]; [lia|].
    rewrite buildLoop_render by (exact Hsep || lia).
    cbn [app skipn]. f_equal. apply markFrom_ext. intros j _.
    rewrite Hmerge. apply Hcov.
Qed.

End Spans.

(** *** The matches of a word *)

Lemma matchesHere_iff (word s : list ascii) :
  matchesHere word s = true
  <-> map lowerChar (firstn (List.length word) s) = map lowerChar word.
Proof.
  revert s. induction word as [|a word IH]; intros s.
  - cbn. tauto.
  - destruct s as [|b s]; cbn [matchesHere List.length firstn map].
    + split; discriminate.
    + rewrite andb_true_iff, IH, Ascii.eqb_eq. split.
      * intros [-> ->]. reflexivity.
      * intros [= -> ->]. tauto.
Qed.

Lemma matchesHere_length (word s : list ascii) :
  matchesHere word s = true -> List.length word <= List.length s.
Proof.
  intros H%matchesHere_iff. apply (f_equal (@List.length ascii)) in H.
  rewrite !length_map, length_firstn in H. lia.
Qed.

Lemma skipn_tail {A : Type} (n : nat) (l : list A) (c : A) (r : list A) :
  skipn n l = c :: r -> skipn (S n) l = r /\ n < List.length l.
Proof.
  revert l. induction n as [|n IH]; intros l H.
  - change (l = c :: r) in H. subst l. split; [reflexivity|cbn; lia].
  - destruct l as [|x l]; [discriminate|]. change (skipn n l = c :: r) in H.
    destruct (IH l H) as [H1 H2]. split; [exact H1|cbn; lia].
Qed.

Section Scan.

Variable stringValue : list ascii.
Variable word : list ascii.
Hypothesis word_nonempty : word <> [].

(** Every match found is an occurrence of the word, with the characters of
    the text it spans. *)
Lemma execLoop_sound (s : list ascii) :
  forall pos skip,
    s = skipn pos stringValue ->
    Forall (fun m => wellFormed stringValue m
                     /\ end_ m = start m + List.length word
                     /\ occursAt word stringValue (start m) = true)
           (execLoop word s pos skip).
Proof.
  induction s as [|c r IH]; intros pos skip Hs; [constructor|].
  symmetry in Hs. destruct (skipn_tail _ _ _ _ Hs) as [Hr Hpos]. symmetry in Hr.
  cbn [execLoop]. destruct skip as [|k]; [|now apply IH].
  destruct (matchesHere word (c :: r)) eqn:E; [|now apply IH].
  constructor; [|now apply IH].
  pose proof (matchesHere_length _ _ E) as Hlen.
  assert (Hsl : List.length (c :: r) = List.length stringValue - pos)
    by (rewrite <- Hs; apply length_skipn).
  assert (Hw : 0 < List.length word) by (destruct word; [congruence|cbn; lia]).
  cbn [start end_ text]. split; [|split; [reflexivity|]].
  - unfold wellFormed. cbn [start end_ text]. split; [lia|]. split; [lia|].
    rewrite substring_firstn by lia. rewrite Hs. f_equal. lia.
  - unfold occursAt. apply bool_decide_eq_true. rewrite Hs. now apply matchesHere_iff.
Qed.

(** Every occurrence of the word at or after [lastIndex] lies inside a
    match that is found. *)
Lemma execLoop_complete (s : list ascii) :
  forall pos skip k,
    skip <= k -> k < List.length s -> matchesHere word (skipn k s) = true ->
    exists m, In m (execLoop word s pos skip)
              /\ start m <= pos + k < end_ m
              /\ end_ m = start m + List.length word.
Proof.
  assert (Hw : 0 < List.length word) by (destruct word; [congruence|cbn; lia]).
  induction s as [|c r IH]; intros pos skip k Hskip Hk Hm; [cbn in Hk; lia|].
  cbn [execLoop]. destruct skip as [|sk].
  - destruct (matchesHere word (c :: r)) eqn:E.
    + destruct (Nat.lt_ge_cases k (List.length word)) as [Hin|Hout].
      * eexists. split; [now left|]. cbn [start end_]. lia.
      * destruct k as [|k']; [lia|].
        destruct (IH (S pos) (List.length word - 1) k') as (m & Hin & Hb & He);
          [lia|cbn in Hk; lia|exact Hm|].
        exists m. split; [now right|]. split; [lia|exact He].
    + destruct k as [|k']; [cbn in Hm; congruence|].
      destruct (IH (S pos) 0 k') as (m & Hin & Hb & He);
        [lia|cbn in Hk; lia|exact Hm|].
      exists m. split; [exact Hin|]. split; [lia|exact He].
  - destruct k as [|k']; [lia|].
    destruct (IH (S pos) sk k') as (m & Hin & Hb & He);
      [lia|cbn in Hk; lia|exact Hm|].
    exists m. split; [exact Hin|]. split; [lia|exact He].
Qed.

End Scan.

(** An occurrence lies within the text. *)
Lemma occursAt_within (word s : list ascii) (i : nat) :
  word <> [] -> occursAt word s i = true -> i < List.length s.
Proof.
  intros Hw H. unfold occursAt in H. apply bool_decide_eq_true in H.
  apply (f_equal (@List.length ascii)) in H.
  rewrite !length_map, length_firstn, length_skipn in H.
  destruct word; [congruence|]. cbn [List.length] in H. lia.
Qed.

Lemma chars_nonempty (w : string) : w <> "" -> list_ascii_of_string w <> [].
Proof. destruct w; [congruence|discriminate]. Qed.

(** For non-empty words the scans end, and the matches are the
    concatenation of the matches of each word. *)
Lemma collectMatches_total (s : list ascii) (words : list string) :
  Forall (fun w => w <> "") words ->
  collectMatches s words
  = Some (flat_map (fun w => execLoop (list_ascii_of_string w) s 0 0) words).
Proof.
  induction 1 as [|w words Hw _ IH]; [reflexivity|].
  cbn [collectMatches flat_map]. unfold matchesOfWord.
  pose proof (chars_nonempty w Hw) as Hne.
  destruct (list_ascii_of_string w) as [|a l] eqn:E; [congruence|].
  now rewrite IH.
Qed.

(** With nothing covered the text is escaped as it is. *)
Lemma highlightSpec_uncovered (cover : nat -> bool) (content : string) :
  (forall i, cover i = false) -> highlightSpec cover content = escapeHtml content.
Proof.
  intros H. unfold highlightSpec, escapeHtml. f_equal.
  rewrite (markFrom_const cover false) by (intros; apply H).
  rewrite <- (app_nil_r (map (pair false) _)).
  rewrite renderMarked_unmarked by exact I. cbn. apply app_nil_r.
Qed.

(** The claim as the specification words it: all occurrences of every
    word are marked. *)
Definition highlightAllOccurrences (content : string) (words : list string) : string :=
  highlightSpec (coveredByOccurrence words (list_ascii_of_string content)) content.

(** C6, as stated, fails: the scan for a word resumes after the end of the
    match it has just found, so the occurrence of "aa" at position 1 of
    "aaa" is not found and the last "a" stays outside the marker.  And for
    the non-empty word list that holds the empty word, the call does not
    return at all. *)
Lemma applyHighlighting_skips_overlap :
  occursAt (list_ascii_of_string "aa") (list_ascii_of_string "aaa") 1 = true /\
  applyHighlighting "aaa" ["aa"%string]
  = Some (string_of_list_ascii
            (spanOpen ++ list_ascii_of_string "aa" ++ spanClose ++ list_ascii_of_string "a")) /\
  highlightAllOccurrences "aaa" ["aa"%string]
  = string_of_list_ascii (spanOpen ++ list_ascii_of_string "aaa" ++ spanClose) /\
  applyHighlighting "aaa" ["aa"%string] <> Some (highlightAllOccurrences "aaa" ["aa"%string]) /\
  applyHighlighting "a" [""%string] = None.
Proof.
  repeat split; try (vm_compute; reflexivity).
  vm_compute. discriminate.
Qed.

(** *** The scan, position by position and occurrence by occurrence *)

Lemma takeOccurrences_from (w s : list ascii) (next next' : nat) (l : list nat) :
  next <= next' -> Forall (fun i => next' <= i) l ->
  takeOccurrences w s next l = takeOccurrences w s next' l.
Proof.
  intros Hle Hl. induction Hl as [|i l Hi Hl IH]; [reflexivity|].
  cbn [takeOccurrences].
  replace (next <=? i) with true by (symmetry; apply Nat.leb_le; lia).
  replace (next' <=? i) with true by (symmetry; apply Nat.leb_le; lia).
  now rewrite IH.
Qed.

Lemma seq_from (a n : nat) : Forall (fun i => a <= i) (seq a n).
Proof.
  apply List.Forall_forall. intros i Hi%in_seq. lia.
Qed.

(** The loop of the code takes the occurrences of the scan. *)
Lemma execLoop_scanned (stringValue w : list ascii) (s : list ascii) :
  w <> [] ->
  forall pos skip,
    s = skipn pos stringValue ->
    execLoop w s pos skip
    = map (spanAt w stringValue)
          (takeOccurrences w stringValue (pos + skip) (seq pos (List.length s))).
Proof.
  intros Hw.
  assert (Hlen : 0 < List.length w) by (destruct w; [congruence|cbn; lia]).
  induction s as [|c r IH]; intros pos skip Hs; [reflexivity|].
  symmetry in Hs. destruct (skipn_tail _ _ _ _ Hs) as [Hr Hpos]. symmetry in Hr.
  cbn [execLoop List.length seq takeOccurrences]. destruct skip as [|k].
  - rewrite Nat.add_0_r, Nat.leb_refl. cbn [andb].
    assert (Hocc : occursAt w stringValue pos = matchesHere w (c :: r)).
    { unfold occursAt. rewrite Hs. apply eq_true_iff_eq.
      rewrite bool_decide_eq_true. symmetry. apply matchesHere_iff. }
    rewrite Hocc. destruct (matchesHere w (c :: r)) eqn:E.
    + cbn [map]. f_equal.
      * unfold spanAt. f_equal. unfold substring.
        rewrite Nat.min_l, Nat.max_r by lia. rewrite Hs. f_equal. lia.
      * rewrite (IH (S pos) (List.length w - 1) Hr). do 2 f_equal. lia.
    + rewrite (IH (S pos) 0 Hr). f_equal. rewrite Nat.add_0_r.
      symmetry. apply takeOccurrences_from; [lia|apply seq_from].
  - replace (pos + S k <=? pos) with false by (symmetry; apply Nat.leb_gt; lia).
    cbn [andb]. rewrite (IH (S pos) k Hr). do 2 f_equal. lia.
Qed.

Lemma collectMatches_scanned (s : list ascii) (words : list string) :
  Forall (fun w => w <> "") words ->
  collectMatches s words = Some (scannedSpans words s).
Proof.
  intros Hwords. rewrite (collectMatches_total s words Hwords). f_equal.
  unfold scannedSpans, scanned.
  induction Hwords as [|w words Hw _ IH]; [reflexivity|].
  cbn [flat_map]. rewrite IH. f_equal.
  now rewrite (execLoop_scanned s _ s (chars_nonempty w Hw) 0 0 eq_refl).
Qed.

(** A list that holds the empty word has no list of matches: the scan for
    the empty word does not end. *)
Lemma collectMatches_empty_word (s : list ascii) (words : list string) :
  In ""%string words -> collectMatches s words = None.
Proof.
  induction words as [|w words IH]; intros Hin; [destruct Hin|].
  cbn [collectMatches]. destruct Hin as [->|Hin]; [reflexivity|].
  destruct (matchesOfWord s w); [|reflexivity]. now rewrite IH.
Qed.

Lemma takeOccurrences_apart (w s : list ascii) (next : nat) (l : list nat) :
  apart (List.length w) next (takeOccurrences w s next l).
Proof.
  revert next. induction l as [|i l IH]; intros next; [exact I|].
  cbn [takeOccurrences]. destruct (next <=? i) eqn:E; cbn [andb]; [|apply IH].
  destruct (occursAt w s i); [|apply IH].
  apply Nat.leb_le in E. split; [exact E|apply IH].
Qed.

Lemma takeOccurrences_sound (w s : list ascii) (next : nat) (l : list nat) (j : nat) :
  In j (takeOccurrences w s next l) -> occursAt w s j = true.
Proof.
  revert next. induction l as [|i l IH]; intros next; [intros []|].
  cbn [takeOccurrences]. destruct ((next <=? i) && occursAt w s i) eqn:E; [|apply IH].
  apply andb_true_iff in E as [_ E]. intros [<-|Hin]; [exact E|now apply IH in Hin].
Qed.

(** C6, amended.  An empty text or an empty word list gives the escaped
    text.  A list that holds the empty word makes the call run forever on a
    text that is not empty.  For a list of non-empty words the matches
    found are, word after word, the occurrences a scan from left to right
    takes: an occurrence is taken when it starts at or after the end of the
    one taken before it, so that an occurrence that overlaps the one taken
    before it is passed over; each match carries the characters of the text
    it spans, and the result marks exactly the maximal runs of positions
    the matches cover, so that overlapping or touching spans make one
    marked segment, escapes every segment and wraps the marked ones in the
    marker.  The occurrences taken for a word do not overlap, each is a
    case-insensitive occurrence of the word, and every occurrence of the
    word starts inside one of them.  Escaping replaces each of the five
    characters by its entity. *)
Theorem applyHighlighting_result (content : string) (words : list string) :
  let s := list_ascii_of_string content in
  (content = ""%string \/ words = [] ->
   applyHighlighting content words = Some (escapeHtml content)) /\
  (content <> ""%string -> In ""%string words ->
   applyHighlighting content words = None) /\
  (Forall (fun w => w <> ""%string) words ->
   collectMatches s words = Some (scannedSpans words s) /\
   applyHighlighting content words
   = Some (highlightSpec (covered (scannedSpans words s)) content)) /\
  (forall word, word <> ""%string ->
     let w := list_ascii_of_string word in
     apart (List.length w) 0 (scanned w s) /\
     (forall j, In j (scanned w s) -> occursAt w s j = true) /\
     (forall i, occursAt w s i = true ->
        exists j, In j (scanned w s) /\ j <= i < j + List.length w)) /\
  (forall t, escapeHtmlChars t = flat_map escapeChar t).
Proof.
  cbv zeta. set (s := list_ascii_of_string content).
  split; [|split; [|split; [|split]]].
  - unfold applyHighlighting. intros [->| ->]; [reflexivity|].
    now rewrite orb_true_r.
  - intros Hc Hin. unfold applyHighlighting. fold s.
    destruct content as [|c content]; [congruence|].
    destruct words as [|w words]; [destruct Hin|]. cbn [isEmpty List.length Nat.eqb orb].
    now rewrite (collectMatches_empty_word s (w :: words) Hin).
  - intros Hwords. split; [now apply collectMatches_scanned|].
    assert (Hwf : Forall (wellFormed s) (scannedSpans words s)).
    { pose proof (collectMatches_scanned s words Hwords) as Heq.
      rewrite (collectMatches_total s words Hwords) in Heq. injection Heq as <-.
      apply List.Forall_forall. intros m (w & Hw & Hm)%in_flat_map.
      pose proof (proj1 (List.Forall_forall _ _) Hwords w Hw) as Hne.
      pose proof (execLoop_sound s _ (chars_nonempty w Hne) s 0 0 eq_refl) as Hall.
      now destruct (proj1 (List.Forall_forall _ _) Hall m Hm) as (Hwf & _). }
    unfold applyHighlighting. fold s.
    destruct (isEmpty content || (List.length words =? 0)) eqn:E.
    + f_equal. symmetry. apply highlightSpec_uncovered.
      apply orb_true_iff in E as [E|E].
      * destruct content; [|discriminate]. subst s. cbn.
        intros i. unfold covered. apply not_true_iff_false.
        intros (m & Hm & _)%existsb_exists.
        unfold scannedSpans, scanned in Hm. cbn in Hm.
        apply in_flat_map in Hm as (? & _ & []).
      * destruct words; [|discriminate]. reflexivity.
    + rewrite (collectMatches_scanned s words Hwords). f_equal.
      unfold highlightSpec. fold s. f_equal. now apply highlight_pipeline.
  - intros word Hword. cbv zeta.
    pose proof (chars_nonempty word Hword) as Hne.
    set (w := list_ascii_of_string word) in *.
    split; [apply takeOccurrences_apart|]. split.
    + intros j Hj. now apply takeOccurrences_sound in Hj.
    + intros i Hocc.
      pose proof (occursAt_within _ _ _ Hne Hocc) as Hi.
      unfold occursAt in Hocc. apply bool_decide_eq_true, matchesHere_iff in Hocc.
      destruct (execLoop_complete _ Hne s 0 0 i) as (m & Hm & Hb & He);
        [lia|exact Hi|exact Hocc|].
      rewrite (execLoop_scanned s w s Hne 0 0 eq_refl) in Hm.
      apply in_map_iff in Hm as (j & <- & Hj).
      exists j. split; [exact Hj|]. cbn [spanAt start end_] in Hb. lia.
  - apply escapeHtmlChars_flat_map.
Qed.

(** The example of the specification: the words "ca" and "at" against
    "cat" make one marked segment over the whole run. *)
Lemma applyHighlighting_cat :
  applyHighlighting "cat" ["ca"%string; "at"%string]
  = Some (string_of_list_ascii (spanOpen ++ list_ascii_of_string "cat" ++ spanClose)).
Proof.
  destruct (applyHighlighting_result "cat" ["ca"%string; "at"%string])
    as (_ & _ & Hresult & _).
  destruct Hresult as [_ ->]; [repeat constructor; discriminate|].
  vm_compute. reflexivity.
Defined.

(** The empty word after another word: the scan for it never ends.  (The
    tokenizer of the search box yields no empty word.) *)
Example applyHighlighting_empty_word :
  applyHighlighting "a" ["a"%string; ""%string] = None.
Proof. reflexivity. Qed.

(** The example of the specification with exact-case preservation. *)
Example applyHighlighting_the_cat_sat :
  applyHighlighting "The Cat sat" ["cat"%string]
  = Some (string_of_list_ascii
            (list_ascii_of_string "The " ++ spanOpen ++ list_ascii_of_string "Cat"
             ++ spanClose ++ list_ascii_of_string " sat")).
Proof. vm_compute. reflexivity. Qed.

End Highlight.

(** ** Row matching (specification 4.4) *)

Module RowMatching.
Import JS UseSearch.

(** Row matching as the specification words it: every word is, letter case
    apart, a substring of the text of one of the listed cells. *)
Definition matchRowSpec (words : list string) (row : Row) (columns : list Column) : bool :=
  forallb (fun word =>
    existsb (fun column =>
      includes (toLowerCase (toString (field row (key column)))) (toLowerCase word))
      columns) words.

Lemma inactive_no_words (searchValue : string) :
  hasActiveSearch searchValue = false -> searchWords searchValue = [].
Proof.
  unfold hasActiveSearch, searchWords, splitSearchTerms.
  destruct (isEmpty searchValue); [reflexivity|].
  destruct (trim searchValue); [reflexivity|discriminate].
Qed.

(** X2. With no search word every row matches, whatever it holds. *)
Lemma matchesRow_no_words (searchValue : string) (row : Row) (columns : list Column) :
  searchWords searchValue = [] -> matchesRow searchValue (Some row) columns = true.
Proof.
  intros H. unfold matchesRow. rewrite H. now destruct (hasActiveSearch searchValue).
Qed.

(** X3. When the words are typed in lower case the code agrees with the
    specification: every word is, letter case apart, a substring of one of
    the listed cells. *)
Lemma matchesRow_lowercase (searchValue : string) (row : Row) (columns : list Column) :
  Forall (fun word => toLowerCase word = word) (searchWords searchValue) ->
  matchesRow searchValue (Some row) columns
  = matchRowSpec (searchWords searchValue) row columns.
Proof.
  intros Hlow. unfold matchesRow, matchRowSpec.
  destruct (hasActiveSearch searchValue) eqn:E; cbn [negb].
  - induction Hlow as [|w ws Hw _ IH]; [reflexivity|].
    cbn [forallb]. now rewrite IH, Hw.
  - now rewrite (inactive_no_words searchValue E).
Qed.

(** C5 at the search text "Cat": the word is kept as typed while the cell
    is lower-cased, so the row whose cell reads "Cat" does not match,
    although "Cat" is a case-insensitive substring of it and [hasMatch]
    finds it. *)
Theorem matchesRow_uppercase_word :
  let row : Row := {[ "name" := VStr "Cat" ]} in
  let columns := [{| key := "name" |}] in
  searchWords "Cat" = ["Cat"]
  /\ matchRowSpec (searchWords "Cat") row columns = true
  /\ matchesRow "Cat" (Some row) columns = false
  /\ hasMatch "Cat" (VStr "Cat") = true.
Proof. vm_compute. repeat split. Qed.

(** A search box that holds only white space has no words. *)
Lemma matchesRow_no_words_example :
  matchesRow "   " (Some {[ "name" := VStr "Cat" ]}) [{| key := "name" |}] = true.
Proof.
  apply (matchesRow_no_words "   " {[ "name" := VStr "Cat" ]} [{| key := "name" |}]).
  reflexivity.
Defined.

(** The word "cat" typed in lower case matches the cell "Cat". *)
Lemma matchesRow_lowercase_example :
  matchesRow "cat" (Some {[ "name" := VStr "Cat" ]}) [{| key := "name" |}] = true.
Proof.
  rewrite (matchesRow_lowercase "cat" {[ "name" := VStr "Cat" ]} [{| key := "name" |}]).
  - vm_compute. reflexivity.
  - vm_compute. repeat constructor.
Defined.

End RowMatching.

(** ** The tokenizer of the search box *)

Module Tokenizer.
Import JS UseSearch StringFacts.

(** The string holds no white space. *)
Fixpoint noWhiteSpace (s : string) : bool :=
  match s with
  | EmptyString => true
  | String c r => negb (isWhiteSpace c) && noWhiteSpace r
  end.

(** The string with its white space taken out. *)
Fixpoint stripWhiteSpace (s : string) : string :=
  match s with
  | EmptyString => EmptyString
  | String c r => if isWhiteSpace c then stripWhiteSpace r else String c (stripWhiteSpace r)
  end.

(** The words written one after the other. *)
Definition joinWords (words : list string) : string :=
  fold_right String.append EmptyString words.

Lemma append_cons (c : ascii) (s t : string) :
  (String c s +:+ t)%string = String c (s +:+ t)%string.
Proof. reflexivity. Qed.

Lemma append_nil (t : string) : (EmptyString +:+ t)%string = t.
Proof. reflexivity. Qed.

Lemma append_assoc (a b c : string) : ((a +:+ b) +:+ c = a +:+ (b +:+ c))%string.
Proof.
  induction a as [|x a IH]; [reflexivity|]. rewrite !append_cons. now rewrite IH.
Qed.

Lemma noWhiteSpace_snoc (cur : string) (c : ascii) :
  noWhiteSpace cur = true -> isWhiteSpace c = false ->
  noWhiteSpace (cur +:+ String c EmptyString) = true.
Proof.
  intros Hcur Hc. induction cur as [|x cur IH].
  - rewrite append_nil. cbn [noWhiteSpace]. now rewrite Hc.
  - rewrite append_cons. cbn [noWhiteSpace] in *.
    apply andb_true_iff in Hcur as [Hx Hcur]. now rewrite Hx, IH.
Qed.

Lemma noWhiteSpace_strip (s : string) : noWhiteSpace s = true -> stripWhiteSpace s = s.
Proof.
  induction s as [|c s IH]; [reflexivity|]. cbn.
  destruct (isWhiteSpace c); [discriminate|]. cbn. intros H. now rewrite IH.
Qed.

(** The pieces [split] cuts hold no white space. *)
Lemma splitRuns_noWhiteSpace (s : string) :
  forall cur inSep,
    noWhiteSpace cur = true ->
    Forall (fun w => noWhiteSpace w = true) (splitRuns s cur inSep).
Proof.
  induction s as [|c r IH]; intros cur inSep Hcur; cbn [splitRuns].
  - now repeat constructor.
  - destruct (isWhiteSpace c) eqn:Hc.
    + destruct inSep; [now apply IH|]. constructor; [exact Hcur|now apply IH].
    + apply IH. now apply noWhiteSpace_snoc.
Qed.

(** The pieces, joined, are the piece being read followed by the rest
    without its white space. *)
Lemma splitRuns_join (s : string) :
  forall cur inSep,
    joinWords (splitRuns s cur inSep) = (cur +:+ stripWhiteSpace s)%string.
Proof.
  induction s as [|c r IH]; intros cur inSep; cbn [splitRuns stripWhiteSpace].
  - reflexivity.
  - destruct (isWhiteSpace c) eqn:Hc.
    + destruct inSep; [apply IH|].
      change (joinWords (cur :: splitRuns r "" true))
        with (cur +:+ joinWords (splitRuns r "" true))%string.
      now rewrite IH, append_nil.
    + rewrite IH, append_assoc. reflexivity.
Qed.

Lemma joinWords_filter (l : list string) :
  joinWords (List.filter (fun word => (0 <? String.length word)%nat) l) = joinWords l.
Proof.
  induction l as [|w l IH]; [reflexivity|].
  cbn [List.filter]. destruct w as [|c w].
  - cbn [String.length Nat.ltb Nat.leb]. exact IH.
  - change (joinWords (String c w :: List.filter (fun word => (0 <? String.length word)%nat) l)
            = joinWords (String c w :: l)).
    change (String c w +:+ joinWords (List.filter (fun word => (0 <? String.length word)%nat) l)
            = String c w +:+ joinWords l)%string.
    now rewrite IH.
Qed.

Lemma stripWhiteSpace_trimStart (s : string) :
  stripWhiteSpace (trimStart s) = stripWhiteSpace s.
Proof.
  induction s as [|c r IH]; [reflexivity|]. cbn [trimStart].
  destruct (isWhiteSpace c) eqn:Hc; [|reflexivity].
  cbn [stripWhiteSpace]. now rewrite Hc.
Qed.

Lemma stripWhiteSpace_trimEnd (s : string) :
  stripWhiteSpace (trimEnd s) = stripWhiteSpace s.
Proof.
  induction s as [|c r IH]; [reflexivity|]. cbn [trimEnd stripWhiteSpace].
  destruct (trimEnd r) as [|c' r'] eqn:E.
  - cbn in IH. rewrite <- IH. destruct (isWhiteSpace c) eqn:Hc; cbn; now rewrite ?Hc.
  - cbn [stripWhiteSpace]. now rewrite <- IH.
Qed.

Lemma stripWhiteSpace_trim (s : string) : stripWhiteSpace (trim s) = stripWhiteSpace s.
Proof. unfold trim. now rewrite stripWhiteSpace_trimEnd, stripWhiteSpace_trimStart. Qed.

(** The search words are never empty. *)
Lemma splitSearchTerms_nonempty (s : string) :
  Forall (fun w => w <> EmptyString) (splitSearchTerms s).
Proof.
  unfold splitSearchTerms. destruct (isEmpty s); [constructor|].
  apply List.Forall_forall. intros w [_ Hw]%filter_In.
  destruct w; [discriminate|congruence].
Qed.

(** X4. The tokenizer loses nothing but white space: every search word is
    non-empty and free of white space, and the words written one after the
    other are the search text with its white space taken out. *)
Theorem splitSearchTerms_words (s : string) :
  Forall (fun w => w <> EmptyString /\ noWhiteSpace w = true) (splitSearchTerms s)
  /\ joinWords (splitSearchTerms s) = stripWhiteSpace s.
Proof.
  split.
  - pose proof (splitSearchTerms_nonempty s) as Hne.
    unfold splitSearchTerms in *. destruct (isEmpty s); [constructor|].
    pose proof (splitRuns_noWhiteSpace (trim s) EmptyString false eq_refl) as Hws.
    rewrite List.Forall_forall in *. intros w Hw. split; [now apply Hne|].
    apply Hws. now apply filter_In in Hw.
  - unfold splitSearchTerms. destruct (isEmpty s) eqn:E.
    + now destruct s.
    + rewrite joinWords_filter, splitRuns_join. cbn. apply stripWhiteSpace_trim.
Qed.

Lemma stripWhiteSpace_empty (s : string) :
  isEmpty (stripWhiteSpace s) = allWhiteSpace s.
Proof.
  induction s as [|c r IH]; [reflexivity|]. cbn.
  destruct (isWhiteSpace c); [exact IH|reflexivity].
Qed.

(** An active search has a word. *)
Lemma active_has_words (searchValue : string) :
  hasActiveSearch searchValue = true -> searchWords searchValue <> [].
Proof.
  unfold hasActiveSearch, searchWords. intros H Hnil.
  assert (Hj : joinWords (splitSearchTerms searchValue) = stripWhiteSpace searchValue).
  { unfold splitSearchTerms. destruct (isEmpty searchValue) eqn:E.
    - now destruct searchValue.
    - rewrite joinWords_filter, splitRuns_join. cbn. apply stripWhiteSpace_trim. }
  rewrite Hnil in Hj. cbn in Hj.
  pose proof (stripWhiteSpace_empty searchValue) as He. rewrite <- Hj in He. cbn in He.
  pose proof (trim_empty searchValue) as Ht. rewrite <- He in Ht.
  destruct (trim searchValue); discriminate.
Qed.

(** X5. The search is active exactly when there is at least one search
    word. *)
Theorem hasActiveSearch_words (searchValue : string) :
  hasActiveSearch searchValue = true <-> searchWords searchValue <> [].
Proof.
  split; [apply active_has_words|].
  unfold hasActiveSearch, searchWords.
  intros Hne. destruct (trim searchValue) as [|c r] eqn:E; [|reflexivity].
  exfalso. apply Hne. unfold splitSearchTerms. rewrite E.
  now destruct (isEmpty searchValue).
Qed.

End Tokenizer.

(** ** Escaping *)

Module Escaping.
Import JS UseSearch Highlight.

Local Open Scope list_scope.

(** The five characters [escapeHtml] replaces. *)
Definition isMarkup (c : ascii) : bool :=
  Ascii.eqb c "&" || Ascii.eqb c "<" || Ascii.eqb c ">" || Ascii.eqb c quot
  || Ascii.eqb c "'".

(** What [escapeChar] gives: one of the five entities for its character,
    or the character itself when it is none of the five. *)
Lemma escapeChar_cases (c : ascii) :
  (c = "&"%char /\ escapeChar c = list_ascii_of_string "&amp;")
  \/ (c = "<"%char /\ escapeChar c = list_ascii_of_string "&lt;")
  \/ (c = ">"%char /\ escapeChar c = list_ascii_of_string "&gt;")
  \/ (c = quot /\ escapeChar c = list_ascii_of_string "&quot;")
  \/ (c = "'"%char /\ escapeChar c = list_ascii_of_string "&#039;")
  \/ (isMarkup c = false /\ escapeChar c = [c]).
Proof.
  unfold escapeChar, isMarkup.
  destruct (Ascii.eqb c "&") eqn:E1; [apply Ascii.eqb_eq in E1; tauto|].
  destruct (Ascii.eqb c "<") eqn:E2; [apply Ascii.eqb_eq in E2; tauto|].
  destruct (Ascii.eqb c ">") eqn:E3; [apply Ascii.eqb_eq in E3; tauto|].
  destruct (Ascii.eqb c quot) eqn:E4; [apply Ascii.eqb_eq in E4; tauto|].
  destruct (Ascii.eqb c "'") eqn:E5; [apply Ascii.eqb_eq in E5; tauto|].
  tauto.
Qed.

(** No character of an escaped character is [<], [>], a double or a single
    quote. *)
Lemma escapeChar_safe (c x : ascii) :
  In x (escapeChar c) ->
  x <> "<"%char /\ x <> ">"%char /\ x <> quot /\ x <> "'"%char.
Proof.
  destruct (escapeChar_cases c)
    as [[_ ->]|[[_ ->]|[[_ ->]|[[_ ->]|[[_ ->]|[Hc ->]]]]]]; cbn [list_ascii_of_string In].
  1-5: intros H; repeat (destruct H as [<-|H]; [repeat split; discriminate|]); destruct H.
  intros [<-|[]]. unfold isMarkup in Hc.
  repeat (apply orb_false_iff in Hc as [Hc ?]).
  repeat split; intros ->; discriminate.
Qed.

Lemma escapeHtml_chars (content : string) :
  list_ascii_of_string (escapeHtml content)
  = flat_map escapeChar (list_ascii_of_string content).
Proof.
  unfold escapeHtml.
  now rewrite list_ascii_of_string_of_list_ascii, escapeHtmlChars_flat_map.
Qed.

(** X6. Escaped text holds no [<], no [>] and no quote of either kind:
    whatever the text, nothing in it opens a tag or closes an attribute. *)
Theorem escapeHtml_no_markup (content : string) :
  Forall (fun x => x <> "<"%char /\ x <> ">"%char /\ x <> quot /\ x <> "'"%char)
         (list_ascii_of_string (escapeHtml content)).
Proof.
  rewrite escapeHtml_chars. apply List.Forall_forall.
  intros x (c & _ & Hx)%in_flat_map.
  now apply escapeChar_safe with c.
Qed.

(** Two characters that escape to lists with a common beginning are the
    same character. *)
Lemma escapeChar_prefix (a b : ascii) (u v : list ascii) :
  escapeChar a ++ u = escapeChar b ++ v -> a = b /\ u = v.
Proof.
  destruct (escapeChar_cases a)
    as [[-> ->]|[[-> ->]|[[-> ->]|[[-> ->]|[[-> ->]|[Ha ->]]]]]];
  destruct (escapeChar_cases b)
    as [[-> ->]|[[-> ->]|[[-> ->]|[[-> ->]|[[-> ->]|[Hb ->]]]]]];
  cbn [list_ascii_of_string app]; intros H;
  try (injection H as H; try discriminate);
  try (split; [reflexivity|congruence]);
  try discriminate.
  all: try (subst; unfold isMarkup in *; cbn in *; discriminate).
  split; congruence.
Qed.

Lemma escape_injective_chars (s t : list ascii) :
  flat_map escapeChar s = flat_map escapeChar t -> s = t.
Proof.
  revert t. induction s as [|a s IH]; intros [|b t]; cbn [flat_map].
  - reflexivity.
  - intros H. symmetry in H. apply app_eq_nil in H as [H _].
    destruct (escapeChar_cases b)
      as [[_ E]|[[_ E]|[[_ E]|[[_ E]|[[_ E]|[_ E]]]]]]; rewrite E in H; discriminate.
  - intros H. apply app_eq_nil in H as [H _].
    destruct (escapeChar_cases a)
      as [[_ E]|[[_ E]|[[_ E]|[[_ E]|[[_ E]|[_ E]]]]]]; rewrite E in H; discriminate.
  - intros H. apply escapeChar_prefix in H as [-> H]. f_equal. now apply IH.
Qed.

(** X7. Escaping loses nothing: two texts with the same escaped form are
    the same text. *)
Theorem escapeHtml_injective (a b : string) :
  escapeHtml a = escapeHtml b -> a = b.
Proof.
  intros H. apply (f_equal list_ascii_of_string) in H.
  rewrite !escapeHtml_chars in H. apply escape_injective_chars in H.
  apply (f_equal string_of_list_ascii) in H.
  now rewrite !string_of_list_ascii_of_string in H.
Qed.

(** Two texts that differ in one character have different escaped forms. *)
Lemma escapeHtml_injective_example :
  escapeHtml "a<b" <> escapeHtml "a&lt;b".
Proof.
  intros H. apply (escapeHtml_injective "a<b" "a&lt;b") in H. discriminate H.
Defined.

End Escaping.

(** ** Highlighting and matching together *)

Module Marking.
Import JS UseSearch Highlight Tokenizer Escaping.

Local Open Scope nat_scope.
Local Open Scope list_scope.

(** [highlightRawText(text)] for the search text [searchValue]; [None] when
    it does not return. *)
Definition highlightRawText (searchValue : string) (content : string) : option string :=
  if negb (hasActiveSearch searchValue) || isEmpty content
  then Some (escapeHtml content)
  else applyHighlighting content (searchWords searchValue).

(** The matches found for a list of words. *)
Definition foundMatches (s : list ascii) (words : list string) : list Match :=
  flat_map (fun w => execLoop (list_ascii_of_string w) s 0 0) words.

(** For non-empty words the result marks the runs the matches cover. *)
Lemma applyHighlighting_marks (content : string) (words : list string) :
  Forall (fun w => w <> ""%string) words ->
  applyHighlighting content words
  = Some (highlightSpec (covered (foundMatches (list_ascii_of_string content) words)) content).
Proof.
  intros Hwords. unfold applyHighlighting, foundMatches.
  set (s := list_ascii_of_string content).
  destruct (isEmpty content || (List.length words =? 0)) eqn:E.
  - f_equal. symmetry. apply highlightSpec_uncovered.
    apply orb_true_iff in E as [E|E].
    + destruct content; [|discriminate]. subst s. cbn.
      intros i. unfold covered. apply not_true_iff_false.
      intros (w & Hw & _)%existsb_exists.
      apply in_flat_map in Hw as (? & _ & []).
    + destruct words; [|discriminate]. reflexivity.
  - rewrite (collectMatches_total s words Hwords). f_equal.
    unfold highlightSpec. fold s. f_equal. apply highlight_pipeline.
    apply List.Forall_forall. intros m (w & Hw & Hm)%in_flat_map.
    pose proof (proj1 (List.Forall_forall _ _) Hwords w Hw) as Hne.
    pose proof (execLoop_sound s _ (chars_nonempty w Hne) s 0 0 eq_refl) as Hall.
    now destruct (proj1 (List.Forall_forall _ _) Hall m Hm) as (Hwf & _).
Qed.

(** The characters of the runs, in order, are the characters marked. *)
Lemma groupRuns_concat (l : list (bool * ascii)) :
  List.concat (map snd (groupRuns l)) = map snd l.
Proof.
  induction l as [|[b c] r IH]; [reflexivity|].
  cbn [groupRuns map]. rewrite <- IH.
  destruct (groupRuns r) as [|[b' seg] gs]; [reflexivity|].
  now destruct (Bool.eqb b b').
Qed.

Lemma groupRuns_nonempty (l : list (bool * ascii)) :
  Forall (fun run => snd run <> []) (groupRuns l).
Proof.
  induction l as [|[b c] r IH]; [constructor|].
  cbn [groupRuns]. destruct (groupRuns r) as [|[b' seg] gs].
  - repeat constructor. discriminate.
  - inversion IH as [|? ? H1 H2]; subst.
    destruct (Bool.eqb b b'); repeat constructor; try assumption; discriminate.
Qed.

Lemma markFrom_chars (cover : nat -> bool) (i : nat) (s : list ascii) :
  map snd (markFrom cover i s) = s.
Proof.
  revert i. induction s as [|c s IH]; intros i; [reflexivity|].
  cbn [markFrom map]. now rewrite IH.
Qed.

(** X8. Highlighting keeps the text: for non-empty words the result is a
    sequence of non-empty segments of the text, in order and without gap or
    overlap, each escaped and some wrapped in the marker. *)
Theorem applyHighlighting_keeps_text (content : string) (words : list string) :
  Forall (fun w => w <> ""%string) words ->
  exists runs : list (bool * list ascii),
    applyHighlighting content words
    = Some (string_of_list_ascii (flat_map renderRun runs))
    /\ List.concat (map snd runs) = list_ascii_of_string content
    /\ Forall (fun run => snd run <> []) runs.
Proof.
  intros Hwords. rewrite (applyHighlighting_marks content words Hwords).
  eexists. split; [reflexivity|]. split.
  - now rewrite groupRuns_concat, markFrom_chars.
  - apply groupRuns_nonempty.
Qed.

(** The example of the specification cut into its three segments. *)
Lemma applyHighlighting_keeps_text_example :
  exists runs : list (bool * list ascii),
    applyHighlighting "The Cat sat" ["cat"%string]
    = Some (string_of_list_ascii (flat_map renderRun runs))
    /\ List.concat (map snd runs) = list_ascii_of_string "The Cat sat"
    /\ Forall (fun run => snd run <> []) runs.
Proof.
  apply (applyHighlighting_keeps_text "The Cat sat" ["cat"%string]).
  repeat constructor. discriminate.
Defined.

(** The guard of [highlightRawText] changes nothing. *)
Lemma highlightRawText_guard (searchValue content : string) :
  highlightRawText searchValue content
  = applyHighlighting content (searchWords searchValue).
Proof.
  unfold highlightRawText, applyHighlighting.
  destruct (hasActiveSearch searchValue) eqn:E; cbn [negb orb].
  - now destruct (isEmpty content).
  - rewrite (RowMatching.inactive_no_words searchValue E). cbn.
    now rewrite orb_true_r.
Qed.

(** X9. [highlightRawText] always returns, and its guard changes nothing:
    it is [applyHighlighting] on the current search words. *)
Theorem highlightRawText_applyHighlighting (searchValue content : string) :
  highlightRawText searchValue content
  = applyHighlighting content (searchWords searchValue)
  /\ exists out, highlightRawText searchValue content = Some out.
Proof.
  split; [apply highlightRawText_guard|]. rewrite highlightRawText_guard.
  rewrite (applyHighlighting_marks content (searchWords searchValue)
             (splitSearchTerms_nonempty searchValue)).
  eauto.
Qed.

(** *** A match is highlighted exactly when there is one *)

Lemma toLowerCase_chars (s : string) :
  list_ascii_of_string (toLowerCase s) = map lowerChar (list_ascii_of_string s).
Proof. induction s as [|c s IH]; [reflexivity|]. cbn. now rewrite IH. Qed.

Lemma lowerChar_idem (c : ascii) : lowerChar (lowerChar c) = lowerChar c.
Proof. destruct c as [[] [] [] [] [] [] [] []]; reflexivity. Qed.

(** [startsWith] on lower-cased strings is the match of the regular
    expression at the head of the text. *)
Lemma startsWith_lower (w s : string) :
  startsWith (toLowerCase w) (toLowerCase s)
  = matchesHere (list_ascii_of_string w) (list_ascii_of_string s).
Proof.
  revert s. induction w as [|a w IH]; intros s; [reflexivity|].
  destruct s as [|b s]; [reflexivity|].
  cbn [toLowerCase startsWith list_ascii_of_string matchesHere].
  now rewrite IH.
Qed.

(** [includes] on lower-cased strings: the word matches somewhere. *)
Lemma includes_lower (s w : string) :
  includes (toLowerCase s) (toLowerCase w) = true
  <-> exists i, i <= List.length (list_ascii_of_string s)
        /\ matchesHere (list_ascii_of_string w) (skipn i (list_ascii_of_string s)) = true.
Proof.
  induction s as [|c r IH].
  - cbn [toLowerCase includes]. rewrite orb_false_r.
    change EmptyString with (toLowerCase EmptyString) at 1. rewrite startsWith_lower.
    split.
    + intros H. exists 0. split; [cbn; lia|exact H].
    + intros (i & Hi & H). cbn in Hi. now replace i with 0 in H by lia.
  - cbn [toLowerCase includes]. rewrite orb_true_iff, IH.
    change (String (lowerChar c) (toLowerCase r)) with (toLowerCase (String c r)).
    rewrite startsWith_lower. split.
    + intros [H|(i & Hi & H)].
      * exists 0. split; [lia|exact H].
      * exists (S i). split; [cbn; lia|exact H].
    + intros ([|i] & Hi & H); [now left|].
      right. exists i. split; [cbn in Hi; lia|exact H].
Qed.

Lemma groupRuns_marked (b : bool) (c : ascii) (l : list (bool * ascii)) :
  In (b, c) l -> exists seg, In (b, seg) (groupRuns l).
Proof.
  induction l as [|[b0 c0] r IH]; [intros []|].
  intros [[= -> ->]|Hin]; cbn [groupRuns].
  - destruct (groupRuns r) as [|[b' seg] gs]; [eexists; now left|].
    destruct (Bool.eqb b b'); eexists; now left.
  - destruct (IH Hin) as [seg Hseg].
    destruct (groupRuns r) as [|[b' seg'] gs]; [destruct Hseg|].
    destruct (Bool.eqb b0 b') eqn:E.
    + apply Bool.eqb_prop in E. subst b'.
      destruct Hseg as [[= -> ->]|Hseg]; eexists; [now left|right; exact Hseg].
    + exists seg. right. exact Hseg.
Qed.

Lemma groupRuns_sound (b : bool) (seg : list ascii) (l : list (bool * ascii)) :
  In (b, seg) (groupRuns l) -> forall c, In c seg -> In (b, c) l.
Proof.
  revert b seg. induction l as [|[b0 c0] r IH]; intros b seg; [intros []|].
  cbn [groupRuns]. destruct (groupRuns r) as [|[b' seg'] gs].
  - intros [[= -> <-]|[]] c [<-|[]]. now left.
  - destruct (Bool.eqb b0 b') eqn:E.
    + apply Bool.eqb_prop in E. subst b'.
      intros [[= -> <-]|Hin] c Hc.
      * destruct Hc as [<-|Hc]; [now left|]. right. apply (IH b seg'); [now left|exact Hc].
      * right. apply (IH b seg); [now right|exact Hc].
    + intros [[= -> <-]|Hin] c Hc.
      * destruct Hc as [<-|[]]. now left.
      * right. apply (IH b seg); [exact Hin|exact Hc].
Qed.

Lemma markFrom_covered (cover : nat -> bool) (i : nat) (s : list ascii) :
  (exists c, In (true, c) (markFrom cover i s))
  <-> exists j, i <= j < i + List.length s /\ cover j = true.
Proof.
  revert i. induction s as [|c s IH]; intros i; cbn [markFrom List.length].
  - split; [intros [? []]|intros (j & Hj & _); lia].
  - split.
    + intros (x & [[= H _]|Hin]).
      * exists i. split; [lia|exact H].
      * destruct (proj1 (IH (S i)) (ex_intro _ x Hin)) as (j & Hj & Hc).
        exists j. split; [lia|exact Hc].
    + intros (j & Hj & Hc). destruct (Nat.eq_dec j i) as [->|Hne].
      * exists c. left. now rewrite Hc.
      * destruct (proj2 (IH (S i))) as [x Hx]; [exists j; split; [lia|exact Hc]|].
        exists x. now right.
Qed.

(** The marker shows in the rendering exactly when a character is marked. *)
Lemma renderMarked_marker (l : list (bool * ascii)) :
  In "<"%char (renderMarked l) <-> exists c, In (true, c) l.
Proof.
  unfold renderMarked. rewrite in_flat_map. split.
  - intros ([[|] seg] & Hrun & Hin).
    + pose proof (groupRuns_nonempty l) as Hne.
      pose proof (proj1 (List.Forall_forall _ _) Hne _ Hrun) as Hseg. cbn in Hseg.
      destruct seg as [|c seg]; [congruence|].
      exists c. apply (groupRuns_sound true (c :: seg) l Hrun). now left.
    + cbn [renderRun] in Hin. apply in_flat_map in Hin as (c & _ & Hc).
      apply escapeChar_safe in Hc. now destruct Hc as [Hc _].
  - intros [c Hc]. destruct (groupRuns_marked true c l Hc) as [seg Hseg].
    exists (true, seg). split; [exact Hseg|]. cbn. now left.
Qed.

(** X10. On text and search words of code units below 256, where
    [toLowerCase] followed by [includes] and the regular expression with
    the [i] flag fold letters alike, [hasMatch] and the highlighting agree:
    a text has a match exactly when [highlightRawText] wraps some part of
    it in the marker, that is, when its result holds a [<]. *)
Theorem hasMatch_highlighted (searchValue content : string) :
  hasMatch searchValue (VStr content) = true
  <-> exists out, highlightRawText searchValue content = Some out
                  /\ In "<"%char (list_ascii_of_string out).
Proof.
  set (s := list_ascii_of_string content).
  set (words := searchWords searchValue).
  pose proof (splitSearchTerms_nonempty searchValue) as Hwords. fold words in Hwords.
  assert (Hout : highlightRawText searchValue content
                 = Some (highlightSpec (covered (foundMatches s words)) content)).
  { rewrite highlightRawText_guard. now apply applyHighlighting_marks. }
  assert (Hmark : (exists out, highlightRawText searchValue content = Some out
                               /\ In "<"%char (list_ascii_of_string out))
                  <-> exists j, j < List.length s /\ covered (foundMatches s words) j = true).
  { rewrite Hout. unfold highlightSpec. fold s. split.
    - intros (out & [= <-] & Hin).
      rewrite list_ascii_of_string_of_list_ascii in Hin.
      apply renderMarked_marker, markFrom_covered in Hin as (j & Hj & Hc).
      exists j. split; [lia|exact Hc].
    - intros (j & Hj & Hc). eexists. split; [reflexivity|].
      rewrite list_ascii_of_string_of_list_ascii.
      apply renderMarked_marker, markFrom_covered. exists j. split; [lia|exact Hc]. }
  rewrite Hmark. clear Hmark Hout. unfold hasMatch. fold words. split.
  - destruct (hasActiveSearch searchValue); [|discriminate]. cbn [negb].
    destruct (truthy (VStr content)); [|discriminate]. cbn [negb toString].
    intros (w & Hw & Hinc)%existsb_exists.
    apply includes_lower in Hinc as (i & Hi & Hm). fold s in Hi, Hm.
    pose proof (proj1 (List.Forall_forall _ _) Hwords w Hw) as Hne%chars_nonempty.
    assert (Hlt : i < List.length s).
    { apply matchesHere_length in Hm. rewrite length_skipn in Hm.
      destruct (list_ascii_of_string w); [congruence|]. cbn in Hm. lia. }
    destruct (execLoop_complete _ Hne s 0 0 i) as (m & Hm' & Hb & He);
      [lia|exact Hlt|exact Hm|].
    exists i. split; [exact Hlt|].
    apply existsb_exists. exists m. split.
    + apply in_flat_map. now exists w.
    + unfold inside. apply andb_true_iff. split; [apply Nat.leb_le|apply Nat.ltb_lt]; lia.
  - intros (j & Hj & (m & Hm & _)%existsb_exists).
    apply in_flat_map in Hm as (w & Hw & Hm).
    pose proof (proj1 (List.Forall_forall _ _) Hwords w Hw) as Hne%chars_nonempty.
    pose proof (execLoop_sound s _ Hne s 0 0 eq_refl) as Hall.
    destruct (proj1 (List.Forall_forall _ _) Hall m Hm) as ((Hs & He & _) & _ & Hocc).
    destruct (hasActiveSearch searchValue) eqn:E.
    2:{ apply RowMatching.inactive_no_words in E. fold words in E. rewrite E in Hw.
        destruct Hw. }
    cbn [negb]. destruct content as [|c content]; [cbn in Hj; lia|].
    cbn [truthy isEmpty negb toString].
    apply existsb_exists. exists w. split; [exact Hw|].
    apply includes_lower. exists (start m). split; [fold s; lia|].
    unfold occursAt in Hocc. apply bool_decide_eq_true in Hocc.
    now apply matchesHere_iff.
Qed.

End Marking.

(** ** getShowDetails and the header mapping *)

Module ShowDetails.
Import JS Calendar DateObj ProductionUtils StringFacts Overlap.

Section Details.

Variable LocalTZA : Z.
Variable now : Z.
Variable parseDate : JsValue -> bool -> JsValue -> option Z.
Variable GetTopFuzzyMatch :
  JsValue -> list string -> list string -> option Qc -> option string.
Variable Database_raw : string -> option (list (list JsValue)).
Variable Database_rows : string -> gmap string string -> list Row.

(** The loop of [getShowDetails] over the rows. *)
Fixpoint findShow (identifier : string) (data : list Row) : M (option Row) :=
  match data with
  | [] => ret None
  | row :: rest =>
      let showName := field row "Show" in
      let client := field row "Client" in
      let yearVal := field row "Year" in
      if truthy showName && truthy client && truthy yearVal then
        let* computedIdentifier :=
          computeIdentifier GetTopFuzzyMatch Database_rows showName client yearVal in
        if String.eqb computedIdentifier identifier then ret (Some row)
        else findShow identifier rest
      else findShow identifier rest
  end.

Definition getShowDetails (identifier : JsValue) : M (option Row) :=
  if negb (truthy identifier) then ret None
  else
    let* mapping := GetMappingFromProductionSchedule Database_raw in
    let* data := await "ProductionSchedule" (Database_rows "ProductionSchedule" mapping) in
    findShow (toString identifier) data.


(** The schedule as [Database.getData] returns it under the header mapping. *)
Definition scheduleRows : list Row :=
  Database_rows "ProductionSchedule" (fst (GetMappingFromProductionSchedule Database_raw)).

Lemma findShow_find (identifier : string) (data : list Row) :
  fst (findShow identifier data)
  = List.find (hasIdentifier GetTopFuzzyMatch Database_rows identifier) data.
Proof.
  induction data as [|row rest IH]; [reflexivity|].
  cbn [findShow List.find]. unfold hasIdentifier at 1, rowIdentifier.
  destruct (truthy (field row "Show") && truthy (field row "Client")
            && truthy (field row "Year")); [|exact IH].
  rewrite fst_bind. now destruct (String.eqb _ identifier).
Qed.

Lemma getShowDetails_find (identifier : JsValue) :
  fst (getShowDetails identifier)
  = if truthy identifier
    then List.find (hasIdentifier GetTopFuzzyMatch Database_rows (toString identifier))
                   scheduleRows
    else None.
Proof.
  unfold getShowDetails. destruct (truthy identifier); [|reflexivity].
  cbn [negb]. rewrite !fst_bind. apply findShow_find.
Qed.

(** X11. A row [getShowDetails] returns is a row of the schedule that has
    [Show], [Client] and [Year], and its computed identifier is the
    identifier asked for, which is a non-empty string. *)
Theorem getShowDetails_sound (identifier : JsValue) (row : Row) :
  fst (getShowDetails identifier) = Some row ->
  exists s, identifier = VStr s /\ s <> ""%string
    /\ In row scheduleRows
    /\ rowIdentifier GetTopFuzzyMatch Database_rows row = Some s.
Proof.
  rewrite getShowDetails_find.
  destruct identifier as [| |[|c s]]; try discriminate.
  cbn [truthy isEmpty negb toString]. intros H.
  apply find_some in H as [Hin Hid]. exists (String c s).
  repeat split; [discriminate|exact Hin|].
  unfold hasIdentifier in Hid.
  destruct (rowIdentifier GetTopFuzzyMatch Database_rows row) as [i|]; [|discriminate].
  apply String.eqb_eq in Hid. now subst i.
Qed.

(** X12. Looking up the identifier computed for a row of the schedule
    finds a row with that identifier, provided the identifier is not empty
    (the identifier of a row whose show name is white space is empty, and
    the empty identifier finds nothing). *)
Theorem getShowDetails_round_trip (row : Row) (i : string) :
  In row scheduleRows ->
  rowIdentifier GetTopFuzzyMatch Database_rows row = Some i ->
  (i <> ""%string ->
   exists row', fst (getShowDetails (VStr i)) = Some row'
                /\ rowIdentifier GetTopFuzzyMatch Database_rows row' = Some i)
  /\ fst (getShowDetails (VStr "")) = None.
Proof.
  intros Hin Hid. split; [|reflexivity].
  intros Hne. rewrite getShowDetails_find.
  destruct i as [|c i]; [congruence|]. cbn [truthy isEmpty negb toString].
  destruct (List.find _ scheduleRows) as [row'|] eqn:E.
  - exists row'. split; [reflexivity|].
    apply find_some in E as [_ E]. unfold hasIdentifier in E.
    destruct (rowIdentifier GetTopFuzzyMatch Database_rows row') as [j|]; [|discriminate].
    apply String.eqb_eq in E. now subst j.
  - exfalso. pose proof (find_none _ _ E row Hin) as Hno.
    unfold hasIdentifier in Hno. rewrite Hid, String.eqb_refl in Hno. discriminate.
Qed.

(** X13. An identifier filter resolves against the row [getShowDetails]
    returns for that identifier: over the whole schedule, the target date
    of a filter whose value is a non-empty string not of the form
    YYYY-MM-DD is the overlap date of that row, and null when
    [getShowDetails] finds none. *)
Theorem resolveFilterValue_getShowDetails (filter : DateFilter) (v : string) :
  value filter = FStr v ->
  isIsoDate v = false ->
  v <> ""%string ->
  resolvedDate LocalTZA now parseDate GetTopFuzzyMatch Database_rows scheduleRows filter
  = match fst (getShowDetails (VStr v)) with
    | Some row => identifierTargetSpec LocalTZA parseDate filter row
    | None => None
    end.
Proof.
  intros Hv Hiso Hne. rewrite getShowDetails_find.
  destruct v as [|c v]; [congruence|]. cbn [truthy isEmpty negb toString].
  unfold resolvedDate, resolveFilterValue. rewrite Hv, Hiso.
  induction scheduleRows as [|row rest IH]; [reflexivity|].
  cbn [resolveIdentifier List.find].
  unfold hasIdentifier at 1, rowIdentifier.
  destruct (truthy (field row "Show") && truthy (field row "Client")
            && truthy (field row "Year")); [|exact IH].
  rewrite fst_bind.
  destruct (String.eqb _ (String c v)); [|exact IH].
  unfold identifierTargetSpec, rowReturnDate, rowShipDate, rowDate.
  destruct (String.eqb (column filter) "Ship" && String.eqb (type filter) "before");
    [reflexivity|].
  now destruct (String.eqb (column filter) "Return" && String.eqb (type filter) "after").
Qed.


End Details.

(** In the example schedule the identifier "ACME 2025 SUMMIT" finds the
    summit row. *)
Lemma getShowDetails_sound_example :
  exists s, VStr "ACME 2025 SUMMIT" = VStr s /\ s <> ""%string
    /\ In Fixture.summit (scheduleRows Fixture.Database_raw Fixture.Database_rows)
    /\ rowIdentifier Fixture.GetTopFuzzyMatch Fixture.Database_rows Fixture.summit = Some s.
Proof.
  apply (getShowDetails_sound Fixture.GetTopFuzzyMatch Fixture.Database_raw
           Fixture.Database_rows (VStr "ACME 2025 SUMMIT") Fixture.summit).
  vm_compute. reflexivity.
Defined.

(** The identifier of the expo row of the example schedule finds a row
    with that identifier. *)
Lemma getShowDetails_round_trip_example :
  exists row',
    fst (getShowDetails Fixture.GetTopFuzzyMatch Fixture.Database_raw Fixture.Database_rows
           (VStr "GLOBEX 2025 EXPO")) = Some row'
    /\ rowIdentifier Fixture.GetTopFuzzyMatch Fixture.Database_rows row'
       = Some "GLOBEX 2025 EXPO"%string.
Proof.
  apply (getShowDetails_round_trip Fixture.GetTopFuzzyMatch Fixture.Database_raw
           Fixture.Database_rows Fixture.expo "GLOBEX 2025 EXPO").
  - right. left. reflexivity.
  - vm_compute. reflexivity.
  - discriminate.
Defined.

(** The filter (Ship, before) against "ACME 2025 SUMMIT" resolves to the
    return date of the row [getShowDetails] finds, 1 July 2025. *)
Lemma resolveFilterValue_getShowDetails_example :
  resolvedDate Fixture.LocalTZA Fixture.now Fixture.parseDate Fixture.GetTopFuzzyMatch
    Fixture.Database_rows (scheduleRows Fixture.Database_raw Fixture.Database_rows)
    Fixture.shipBeforeSummit
  = Some (dateAtMidnight 0 "2025-07-01").
Proof.
  rewrite (resolveFilterValue_getShowDetails Fixture.LocalTZA Fixture.now Fixture.parseDate
             Fixture.GetTopFuzzyMatch Fixture.Database_raw Fixture.Database_rows
             Fixture.shipBeforeSummit "ACME 2025 SUMMIT" eq_refl eq_refl).
  - vm_compute. reflexivity.
  - discriminate.
Defined.

End ShowDetails.

(** ** Order and validity of the inferred dates *)

Module DateOrder.
Import JS Calendar DateObj ProductionUtils GuessShip.

Section Order.

Variable LocalTZA : Z.
Variable parseDate : JsValue -> bool -> JsValue -> option Z.

(** The date the ship date is counted back from: the show start, or else
    the show end. *)
Definition shipAnchor (row : Row) : option Date :=
  match parsed parseDate (field row "S. Start") (field row "Year") with
  | Some sStart => Some sStart
  | None => parsed parseDate (field row "S. End") (field row "Year")
  end.

Lemma parsed_valid (raw year : JsValue) (d : Date) :
  parsed parseDate raw year = Some d -> exists t, getTime d = Fin t.
Proof.
  unfold parsed. destruct (parseDate raw true year) as [t|]; [|discriminate].
  intros [= <-]. now exists t.
Qed.

(** Counting days back from a valid date, with the year forced only when
    the forced date stays before it, gives a date before it. *)
Lemma adjusted_before (row : Row) (anchor : Date) (n : Z) (b : bool) :
  0 < n -> (exists t, getTime anchor = Fin t) ->
  date_ltb
    (let ship := addDays anchor (- n) in
     if b then let adj := setFullYear LocalTZA ship (Number (field row "Year")) in
               if date_ltb adj anchor then adj else ship
     else ship) anchor = true.
Proof.
  intros Hn [t Ht]. cbv zeta.
  assert (Hs : date_ltb (addDays anchor (- n)) anchor = true).
  { unfold date_ltb, addDays, num_ltb. cbn [getTime]. rewrite Ht. cbn [num_add].
    apply Z.ltb_lt. unfold msPerDay. lia. }
  destruct b; [|exact Hs].
  now destruct (date_ltb (setFullYear _ _ _) anchor) eqn:E.
Qed.

(** X15. When the [Ship] cell does not parse, the inferred ship date is
    strictly before the show start it is counted back from (before the
    show end when there is no show start); with neither there is no ship
    date. *)
Theorem calculateShipDate_before_show (row : Row) :
  parsed parseDate (field row "Ship") (field row "Year") = None ->
  match shipAnchor row with
  | Some anchor =>
      exists ship, _calculateShipDate LocalTZA parseDate row = Some ship
                   /\ date_ltb ship anchor = true
  | None => _calculateShipDate LocalTZA parseDate row = None
  end.
Proof.
  intros Hship. unfold shipAnchor, _calculateShipDate. rewrite Hship.
  destruct (parsed parseDate (field row "S. Start") (field row "Year")) as [sStart|] eqn:E1.
  - eexists. split; [reflexivity|].
    apply (adjusted_before row sStart 14); [lia|now apply parsed_valid in E1].
  - destruct (parsed parseDate (field row "S. End") (field row "Year")) as [sEnd|] eqn:E2;
      [|reflexivity].
    eexists. split; [reflexivity|].
    apply (adjusted_before row sEnd 21); [lia|now apply parsed_valid in E2].
Qed.

(** X16. The ship date and the show date [getRowDate] gives for a row are
    never Invalid Dates, and when the [Ship] cell does not parse the ship
    date is strictly before the show date. *)
Theorem getRowDate_ship_show (row : Row) :
  (forall d, getRowDate LocalTZA parseDate row "Ship" = Some d ->
             exists t, getTime d = Fin t)
  /\ (forall d, getRowDate LocalTZA parseDate row "Show Date" = Some d ->
                exists t, getTime d = Fin t)
  /\ (parsed parseDate (field row "Ship") (field row "Year") = None ->
      forall ship show,
        getRowDate LocalTZA parseDate row "Ship" = Some ship ->
        getRowDate LocalTZA parseDate row "Show Date" = Some show ->
        date_ltb ship show = true).
Proof.
  unfold getRowDate. cbn [String.eqb Ascii.eqb Bool.eqb andb].
  assert (Hplus : forall ship, (exists t, getTime ship = Fin t) ->
            (exists t, getTime (addDays ship 10) = Fin t)
            /\ date_ltb ship (addDays ship 10) = true).
  { intros ship [t Ht]. unfold addDays, date_ltb, num_ltb. cbn [getTime].
    rewrite Ht. cbn [num_add]. split; [eauto|]. apply Z.ltb_lt. unfold msPerDay. lia. }
  split; [|split].
  - intros d. apply calculateShipDate_valid.
  - intros d.
    destruct (parsed parseDate (field row "S. Start") (field row "Year")) as [s|] eqn:E.
    + intros [= <-]. now apply parsed_valid in E.
    + destruct (_calculateShipDate LocalTZA parseDate row) as [ship|] eqn:Es; [|discriminate].
      intros [= <-]. apply Hplus.
      now apply (calculateShipDate_valid LocalTZA parseDate row ship).
  - intros Hship ship show Hs.
    destruct (parsed parseDate (field row "S. Start") (field row "Year")) as [s|] eqn:E.
    + intros [= <-]. revert Hs. unfold _calculateShipDate. rewrite Hship, E.
      intros [= <-].
      apply (adjusted_before row s 14); [lia|now apply parsed_valid in E].
    + rewrite Hs. intros [= <-]. apply Hplus.
      now apply (calculateShipDate_valid LocalTZA parseDate row ship).
Qed.

End Order.

(** The show of the example that starts on 5 January 2025 ships before it. *)
Lemma calculateShipDate_before_show_example :
  exists ship,
    _calculateShipDate Fixture.LocalTZA Fixture.parseDate Fixture.january = Some ship
    /\ date_ltb ship (dateAtMidnight 0 "2025-01-05") = true.
Proof.
  apply (calculateShipDate_before_show Fixture.LocalTZA Fixture.parseDate Fixture.january).
  reflexivity.
Defined.

End DateOrder.

(** ** The result of getOverlappingShows as a part of the schedule *)

Module OverlapOrder.
Import JS Calendar DateObj ProductionUtils Overlap.

Lemma filter_sublist {A : Type} (f : A -> bool) (l : list A) :
  List.filter f l `sublist_of` l.
Proof.
  induction l as [|x l IH]; [constructor|].
  cbn [List.filter]. destruct (f x); now constructor.
Qed.

(** [Math.min] and [Math.max] of two numbers. *)
Definition minNum (a b : Num) : Num :=
  match a, b with Fin p, Fin q => Fin (Z.min p q) | _, _ => NaN end.

Definition maxNum (a b : Num) : Num :=
  match a, b with Fin p, Fin q => Fin (Z.max p q) | _, _ => NaN end.

Lemma Math_min_cons (x y : Num) (l : list Num) :
  Math_min (x :: y :: l) = minNum x (Math_min (y :: l)).
Proof. reflexivity. Qed.

Lemma Math_max_cons (x y : Num) (l : list Num) :
  Math_max (x :: y :: l) = maxNum x (Math_max (y :: l)).
Proof. reflexivity. Qed.

Lemma minNum_swap (a b c : Num) : minNum a (minNum b c) = minNum b (minNum a c).
Proof. destruct a, b, c; cbn; try reflexivity. f_equal. lia. Qed.

Lemma maxNum_swap (a b c : Num) : maxNum a (maxNum b c) = maxNum b (maxNum a c).
Proof. destruct a, b, c; cbn; try reflexivity. f_equal. lia. Qed.

Lemma minNum_comm (a b : Num) : minNum a b = minNum b a.
Proof. destruct a, b; cbn; try reflexivity. f_equal. lia. Qed.

Lemma maxNum_comm (a b : Num) : maxNum a b = maxNum b a.
Proof. destruct a, b; cbn; try reflexivity. f_equal. lia. Qed.

Lemma Math_min_perm (l l' : list Num) : Permutation l l' -> Math_min l = Math_min l'.
Proof.
  induction 1 as [|x l l' Hp IH|x y l|l l' l'' _ IH1 _ IH2].
  - reflexivity.
  - destruct l as [|a l].
    + apply Permutation_nil in Hp. now subst l'.
    + destruct l' as [|a' l'].
      * symmetry in Hp. apply Permutation_nil in Hp. discriminate.
      * now rewrite !Math_min_cons, IH.
  - destruct l as [|a l].
    + cbn. apply minNum_comm.
    + rewrite !Math_min_cons. apply minNum_swap.
  - congruence.
Qed.

Lemma Math_max_perm (l l' : list Num) : Permutation l l' -> Math_max l = Math_max l'.
Proof.
  induction 1 as [|x l l' Hp IH|x y l|l l' l'' _ IH1 _ IH2].
  - reflexivity.
  - destruct l as [|a l].
    + apply Permutation_nil in Hp. now subst l'.
    + destruct l' as [|a' l'].
      * symmetry in Hp. apply Permutation_nil in Hp. discriminate.
      * now rewrite !Math_max_cons, IH.
  - destruct l as [|a l].
    + cbn. apply maxNum_comm.
    + rewrite !Math_max_cons. apply maxNum_swap.
  - congruence.
Qed.

Lemma omap_valid_perm {A : Type} (l l' : list (option A)) :
  Permutation l l' -> Permutation (omap (M := list) id l) (omap (M := list) id l').
Proof.
  induction 1 as [|x l l' Hp IH|x y l|l l' l'' _ IH1 _ IH2].
  - constructor.
  - destruct x; cbn; [now constructor|exact IH].
  - destruct x, y; cbn; try reflexivity. apply perm_swap.
  - now transitivity (omap (M := list) id l').
Qed.

Section Result.

Variable LocalTZA : Z.
Variable now : Z.
Variable parseDate : JsValue -> bool -> JsValue -> option Z.
Variable GetTopFuzzyMatch :
  JsValue -> list string -> list string -> option Qc -> option string.
Variable SearchParams : Type.
Variable searchFilter : list Row -> SearchParams -> list Row.
Variable Database_raw : string -> option (list (list JsValue)).
Variable Database_rows : string -> gmap string string -> list Row.

(** X17. Whatever the parameters, [getOverlappingShows] returns rows of the
    loaded (and text-searched) schedule, each at most as often as it is
    there and in the order of the schedule; with no date filter it returns
    them all. *)
Theorem getOverlappingShows_sublist (parameters : option Parameters)
    (searchParams : option SearchParams) :
  let result := fst (getOverlappingShows LocalTZA now parseDate GetTopFuzzyMatch
                       SearchParams searchFilter Database_raw Database_rows
                       parameters searchParams) in
  let data := loadedRows SearchParams searchFilter Database_raw Database_rows searchParams in
  result `sublist_of` data
  /\ (parameters ≫= dateFilters = None \/ parameters ≫= dateFilters = Some [] ->
      result = data).
Proof.
  cbv zeta. unfold getOverlappingShows. rewrite !fst_bind.
  fold (loadedRows SearchParams searchFilter Database_raw Database_rows searchParams).
  destruct (parameters ≫= dateFilters) as [[|f fs]|].
  - split; [reflexivity|reflexivity].
  - split; [|intros [H|H]; discriminate].
    rewrite fst_bind. cbv zeta.
    destruct (List.length _ =? 0)%nat; cbn [ret fst];
      [apply sublist_nil_l|apply filter_sublist].
  - split; reflexivity.
Qed.

(** X18. The order of the date filters does not matter: two lists with the
    same filters in another order give the same result. *)
Theorem getOverlappingShows_filter_order (fs fs' : list DateFilter)
    (searchParams : option SearchParams) :
  Permutation fs fs' ->
  overlappingShows LocalTZA now parseDate GetTopFuzzyMatch SearchParams searchFilter
    Database_raw Database_rows fs searchParams
  = overlappingShows LocalTZA now parseDate GetTopFuzzyMatch SearchParams searchFilter
      Database_raw Database_rows fs' searchParams.
Proof.
  intros Hperm.
  destruct fs as [|f r].
  { apply Permutation_nil in Hperm. now subst fs'. }
  destruct fs' as [|f' r'].
  { symmetry in Hperm. apply Permutation_nil in Hperm. discriminate. }
  rewrite !overlappingShows_eq. cbv zeta.
  set (data := loadedRows SearchParams searchFilter Database_raw Database_rows searchParams).
  set (g := resolvedDate LocalTZA now parseDate GetTopFuzzyMatch Database_rows data).
  assert (Hvalid : Permutation (omap (M := list) id (map g (f :: r)))
                               (omap (M := list) id (map g (f' :: r')))).
  { apply omap_valid_perm. now apply Permutation_map. }
  assert (Hyears : Permutation
            (map (getFullYear LocalTZA) (omap (M := list) id (map g (f :: r))))
            (map (getFullYear LocalTZA) (omap (M := list) id (map g (f' :: r')))))
    by now apply Permutation_map.
  rewrite (Permutation_length Hvalid).
  rewrite (Math_min_perm _ _ Hyears), (Math_max_perm _ _ Hyears).
  destruct (List.length _ =? 0)%nat; [reflexivity|].
  apply filter_ext. intros row.
  apply eq_true_iff_eq. unfold g.
  rewrite !(keepRow_true LocalTZA now parseDate GetTopFuzzyMatch SearchParams
              searchFilter Database_rows).
  do 2 apply and_iff_compat_l. split.
  - apply Permutation_Forall. exact Hperm.
  - apply Permutation_Forall. symmetry. exact Hperm.
Qed.

End Result.

(** Reordering the filters of the example changes nothing. *)
Lemma getOverlappingShows_filter_order_example :
  overlappingShows Fixture.LocalTZA Fixture.now Fixture.parseDate Fixture.GetTopFuzzyMatch
    unit Fixture.searchFilter Fixture.Database_raw Fixture.Database_rows
    [Fixture.shipBeforeJune; Fixture.shipBeforeSummit] None
  = overlappingShows Fixture.LocalTZA Fixture.now Fixture.parseDate Fixture.GetTopFuzzyMatch
      unit Fixture.searchFilter Fixture.Database_raw Fixture.Database_rows
      [Fixture.shipBeforeSummit; Fixture.shipBeforeJune] None.
Proof.
  apply (getOverlappingShows_filter_order Fixture.LocalTZA Fixture.now Fixture.parseDate
           Fixture.GetTopFuzzyMatch unit Fixture.searchFilter Fixture.Database_raw
           Fixture.Database_rows).
  apply perm_swap.
Defined.

End OverlapOrder.

(** ** Identifiers are trimmed *)

Module IdentifierShape.
Import JS ProductionUtils StringFacts.

(** The string is empty or begins with a character that is not white
    space. *)
Definition headNotWhiteSpace (s : string) : Prop :=
  match s with
  | EmptyString => True
  | String c _ => isWhiteSpace c = false
  end.

Lemma trimStart_head (s : string) : headNotWhiteSpace (trimStart s).
Proof.
  induction s as [|c r IH]; [exact I|]. cbn [trimStart].
  destruct (isWhiteSpace c) eqn:Hc; [exact IH|exact Hc].
Qed.

Lemma trimEnd_head (s : string) : headNotWhiteSpace s -> headNotWhiteSpace (trimEnd s).
Proof.
  destruct s as [|c r]; [trivial|]. cbn [headNotWhiteSpace trimEnd]. intros Hc.
  destruct (trimEnd r); [now rewrite Hc|exact Hc].
Qed.

Lemma trimStart_fixed (s : string) : headNotWhiteSpace s -> trimStart s = s.
Proof.
  destruct s as [|c r]; [reflexivity|]. cbn. now intros ->.
Qed.

Lemma trimEnd_cons (c : ascii) (r : string) :
  trimEnd (String c r)
  = match trimEnd r with
    | EmptyString => if isWhiteSpace c then EmptyString else String c EmptyString
    | r' => String c r'
    end.
Proof. reflexivity. Qed.

Lemma trimEnd_idempotent (s : string) : trimEnd (trimEnd s) = trimEnd s.
Proof.
  induction s as [|c r IH]; [reflexivity|]. rewrite (trimEnd_cons c r).
  destruct (trimEnd r) as [|c' r'] eqn:E.
  - destruct (isWhiteSpace c) eqn:Hc; [reflexivity|].
    rewrite trimEnd_cons. cbn [trimEnd]. now rewrite Hc.
  - rewrite trimEnd_cons, IH. reflexivity.
Qed.

(** Trimming twice is trimming once. *)
Lemma trim_idempotent (s : string) : trim (trim s) = trim s.
Proof.
  unfold trim.
  rewrite (trimStart_fixed (trimEnd (trimStart s))).
  - apply trimEnd_idempotent.
  - apply trimEnd_head, trimStart_head.
Qed.

Section Shape.

Variable GetTopFuzzyMatch :
  JsValue -> list string -> list string -> option Qc -> option string.
Variable Database_rows : string -> gmap string string -> list Row.

(** X19. An identifier never begins or ends with white space: trimming
    the result of [computeIdentifier] changes nothing, whatever the matcher
    returns. *)
Theorem computeIdentifier_trimmed (showName clientName year : JsValue) :
  let identifier :=
    fst (computeIdentifier GetTopFuzzyMatch Database_rows showName clientName year) in
  trim identifier = identifier
  /\ headNotWhiteSpace identifier.
Proof.
  cbv zeta. unfold computeIdentifier.
  destruct (negb (truthy showName) || isEmpty (trim (toString showName))).
  - split; [reflexivity|exact I].
  - rewrite Overlap.fst_bind.
    destruct (fst (computeIdentifierReferenceData Database_rows)) as [[cn ca] [sn sa]].
    cbn [ret fst]. split; [apply trim_idempotent|].
    apply trimEnd_head, trimStart_head.
Qed.

End Shape.

End IdentifierShape.

(** ** The cards grid *)

Module Cards.
Import JS UseSearch Tokenizer.

(** The fields of a card the search looks into. *)
Definition cardFields (row : Row) : list JsValue :=
  [field row "title"; field row "content"; field row "contentFooter"].

(** [field != null] *)
Definition notNullish (v : JsValue) : bool :=
  match v with
  | VUndef | VNull => false
  | VStr _ => true
  end.

(** The test of the inner [filter] of [visibleCards]. *)
Definition cardMatches (searchWords : list string) (row : Row) : bool :=
  forallb (fun word =>
    existsb (fun f =>
      notNullish f && includes (toLowerCase (toString f)) (toLowerCase word))
      (cardFields row)) searchWords.

(** [visibleCards]; [items] is [None] when it is not an array, and an item
    is [None] when it is null or undefined. *)
Definition visibleCards (searchValue : string) (hideCardsOnSearch : bool)
    (items : option (list (option Row))) : list Row :=
  match items with
  | None => []
  | Some items =>
      let filteredData := omap (M := list) id items in
      if hasActiveSearch searchValue && hideCardsOnSearch
      then List.filter (cardMatches (searchWords searchValue)) filteredData
      else filteredData
  end.

(** A search word is found in a card: it is, letter case apart, a
    substring of one of its fields that holds text. *)
Definition wordInCard (row : Row) (word : string) : Prop :=
  exists f s, In f (cardFields row) /\ f = VStr s
              /\ includes (toLowerCase s) (toLowerCase word) = true.

Lemma cardMatches_true (words : list string) (row : Row) :
  cardMatches words row = true <-> Forall (wordInCard row) words.
Proof.
  unfold cardMatches. rewrite forallb_forall, List.Forall_forall.
  apply forall_proper. intros word. apply forall_proper. intros _.
  rewrite existsb_exists. unfold wordInCard. split.
  - intros (f & Hf & H). apply andb_true_iff in H as [Hn H].
    destruct f as [| |s]; try discriminate. now exists (VStr s), s.
  - intros (f & s & Hf & -> & H). exists (VStr s). now split.
Qed.

(** X20. A card is visible exactly when it is a (non-null) item and, if
    cards are hidden on search, every search word is found in it, letter
    case apart, in a field that holds text; the visible cards keep the
    order of the items. *)
Theorem visibleCards_spec (searchValue : string) (hideCardsOnSearch : bool)
    (items : list (option Row)) (row : Row) :
  visibleCards searchValue hideCardsOnSearch (Some items)
    `sublist_of` omap (M := list) id items
  /\ (In row (visibleCards searchValue hideCardsOnSearch (Some items))
      <-> In (Some row) items
          /\ (hideCardsOnSearch = true ->
              Forall (wordInCard row) (searchWords searchValue))).
Proof.
  assert (Hitems : In row (omap (M := list) id items) <-> In (Some row) items).
  { rewrite <- !list_elem_of_In, list_elem_of_omap. split.
    - intros (o & Ho & Hid). unfold id in Hid. now subst o.
    - intros H. now exists (Some row). }
  unfold visibleCards. cbv zeta.
  destruct (hasActiveSearch searchValue) eqn:E; cbn [andb].
  - destruct hideCardsOnSearch.
    + split; [apply OverlapOrder.filter_sublist|].
      rewrite filter_In, cardMatches_true, Hitems. intuition.
    + split; [reflexivity|]. rewrite Hitems. intuition discriminate.
  - split; [reflexivity|]. rewrite Hitems.
    rewrite (RowMatching.inactive_no_words searchValue E). intuition.
Qed.

(** X21. A card none of whose three fields holds text is hidden by every
    active search: the text "undefined" or "null" of a missing field is
    never searched. *)
Theorem visibleCards_skips_missing (searchValue : string)
    (items : list (option Row)) (row : Row) :
  hasActiveSearch searchValue = true ->
  Forall (fun f => notNullish f = false) (cardFields row) ->
  ~ In row (visibleCards searchValue true (Some items)).
Proof.
  intros Hactive Hmissing. unfold visibleCards. cbv zeta.
  rewrite Hactive. cbn [andb]. rewrite filter_In. intros [_ Hm].
  pose proof (active_has_words searchValue Hactive) as Hne.
  destruct (searchWords searchValue) as [|w ws]; [congruence|].
  unfold cardMatches in Hm. cbn [forallb] in Hm.
  apply andb_true_iff in Hm as [Hm _]. apply existsb_exists in Hm as (f & Hf & H).
  rewrite List.Forall_forall in Hmissing. rewrite (Hmissing f Hf) in H. discriminate.
Qed.

(** A card with no field at all is hidden by the search for "undefined". *)
Lemma visibleCards_skips_missing_example :
  ~ In (∅ : Row) (visibleCards "undefined" true (Some [Some ∅])).
Proof.
  apply (visibleCards_skips_missing "undefined" [Some ∅] ∅).
  - reflexivity.
  - repeat constructor.
Defined.

(** X22. [matchesRow] does search the text of a missing cell: a row that
    lacks one of the listed columns matches every search whose words are
    all substrings of "undefined". *)
Theorem matchesRow_missing_cell (searchValue : string) (row : Row)
    (columns : list Column) (column : Column) :
  In column columns ->
  row !! key column = None ->
  Forall (fun word => includes "undefined" word = true) (searchWords searchValue) ->
  matchesRow searchValue (Some row) columns = true.
Proof.
  intros Hcol Hmissing Hwords. unfold matchesRow.
  destruct (hasActiveSearch searchValue); [|reflexivity]. cbn [negb].
  apply forallb_forall. intros word Hword.
  apply existsb_exists. exists column. split; [exact Hcol|].
  unfold field. rewrite Hmissing. cbn [default toString].
  rewrite List.Forall_forall in Hwords. exact (Hwords word Hword).
Qed.

(** The row with no cell matches the search for "undefined". *)
Lemma matchesRow_missing_cell_example :
  matchesRow "undefined" (Some ∅) [{| key := "name" |}] = true.
Proof.
  apply (matchesRow_missing_cell "undefined" ∅ [{| key := "name" |}] {| key := "name" |}).
  - now left.
  - reflexivity.
  - vm_compute. repeat constructor.
Defined.

End Cards.

(** ** The year of an inferred return date *)

Module ReturnYear.
Import JS Calendar DateObj ProductionUtils CalendarFacts.







Section Return.

Variable LocalTZA : Z.
Variable parseDate : JsValue -> bool -> JsValue -> option Z.



End Return.



End ReturnYear.
